(** * AutoFlip crop planning and temporal smoothing

    A shallow embedding of [server/services/autoflip-mediapipe.py]:
    the aggregation of detected regions, [calculate_autoflip_crop],
    [smooth_crop_transitions], [process_video_autoflip] and [main].

    Python [int] is [Z].  Python [float] is kept abstract behind the
    interface [PyFloat], which the development instantiates twice:
    - [Qc], exact rational arithmetic, over which the general theorems
      are proved (no rounding, no NaN, no infinity);
    - [float], IEEE 754 binary64 as the kernel computes it, over which
      the concrete scenarios are evaluated.
    An [int] operand of a float operation goes through [float_of_int],
    and [a / b] on two ints is the division of their conversions.
    Exceptions are values of [exn], carried by [Result].  OpenCV and
    MediaPipe are parameters of the driver: a video is the list of its
    frames with its four properties, and the detections of a frame are
    given by a function. *)

From Stdlib Require Import ZArith QArith Qcanon Qround Qabs Qminmax Floats Lia Lqa Sorted.
From stdpp Require Import base numbers list strings gmap.

Local Open Scope Z_scope.

(** ** Exceptions *)

Inductive exn : Set :=
| ZeroDivisionError
| ValueError
| OverflowError.

Inductive Result (A : Type) : Type :=
| Ok (a : A)
| Raise (e : exn).
Arguments Ok {A} a.
Arguments Raise {A} e.

Global Instance Result_ret : MRet Result := λ A a, Ok a.
Global Instance Result_bind : MBind Result := λ A B f m,
  match m with
  | Ok a => f a
  | Raise e => Raise e
  end.
Global Instance Result_fmap : FMap Result := λ A B f m,
  match m with
  | Ok a => Ok (f a)
  | Raise e => Raise e
  end.

(** ** Python floats *)

Class PyFloat (F : Type) : Type := {
  float_of_int : Z → F;          (* the conversion of an int operand *)
  fadd : F → F → F;
  fsub : F → F → F;
  fmul : F → F → F;
  fdiv : F → F → F;              (* [x / y] for a divisor that is not zero *)
  flt : F → F → bool;            (* [x < y] *)
  fis_zero : F → bool;           (* [x == 0] *)
  int_of_float : F → Result Z;   (* [int(x)]: truncation toward zero *)
}.

(** [x / y], which raises on a zero divisor. *)
Definition truediv {F} `{PyFloat F} (x y : F) : Result F :=
  if fis_zero y then Raise ZeroDivisionError else Ok (fdiv x y).

(** *** Exact rationals *)

(** [int(q)]: the quotient toward zero of numerator by denominator. *)
Definition Qtrunc (q : Q) : Z := Z.quot (Qnum q) (Zpos (Qden q)).
Definition Qctrunc (q : Qc) : Z := Qtrunc q.

Definition Qcltb (x y : Qc) : bool :=
  Qnum x * Zpos (Qden y) <? Qnum y * Zpos (Qden x).

Definition Qcis_zero (x : Qc) : bool := Qnum x =? 0.

Global Instance Qc_PyFloat : PyFloat Qc := {|
  float_of_int := Qc_of_Z;
  fadd := Qcplus;
  fsub := Qcminus;
  fmul := Qcmult;
  fdiv := Qcdiv;
  flt := Qcltb;
  fis_zero := Qcis_zero;
  int_of_float := λ q, Ok (Qctrunc q);
|}.

(** *** IEEE 754 binary64 *)

Module Binary64.

(** [float(n)]: the nearest double, ties to even.  Exact for
    [|n| <= 2^53]; beyond the largest double Python raises where this
    gives an infinity. *)
Definition of_Z (n : Z) : float :=
  SF2Prim (binary_normalize prec emax n 0 false).

(** [int(x)]. *)
Definition to_Z (x : float) : Result Z :=
  match Prim2SF x with
  | S754_zero _ => Ok 0
  | S754_infinity _ => Raise OverflowError
  | S754_nan => Raise ValueError
  | S754_finite s m e =>
      let a := if 0 <=? e then Zpos m * 2 ^ e else Zpos m / 2 ^ (- e) in
      Ok (if s then - a else a)
  end.

Global Instance float_PyFloat : PyFloat float := {|
  float_of_int := of_Z;
  fadd := PrimFloat.add;
  fsub := PrimFloat.sub;
  fmul := PrimFloat.mul;
  fdiv := PrimFloat.div;
  flt := PrimFloat.ltb;
  fis_zero := PrimFloat.is_zero;
  int_of_float := to_Z;
|}.

End Binary64.

(** ** Data model *)

Section Model.
Context {F : Type} `{PyFloat F}.

(** A box [[x, y, w, h]] in pixels. *)
Record PixelBox : Type := mkPixelBox {
  px : Z; py : Z; pw : Z; ph : Z
}.

(** A box [[x, y, w, h]] in fractions of the frame. *)
Record NormBox : Type := mkNormBox {
  nx : F; ny : F; nw : F; nh : F
}.

(** An entry of ['faces'], ['poses'] or ['hands']. *)
Record region : Type := mkRegion {
  region_bbox : PixelBox;
  region_confidence : F;
  region_normalized_bbox : NormBox
}.

Record overall : Type := mkOverall {
  normalized : NormBox;
  absolute : PixelBox
}.

Record salient_regions : Type := mkSalient {
  faces : list region;
  poses : list region;
  hands : list region;
  overall_bbox : option overall;
  salient_confidence : F
}.

(** The keys [center_x], [center_y] and [salient_bbox], which only the
    salient branch adds. *)
Record salient_guide : Type := mkGuide {
  center_x : F;
  center_y : F;
  salient_bbox : NormBox
}.

Record crop_info : Type := mkCrop {
  crop_x : Z;
  crop_y : Z;
  crop_width : Z;
  crop_height : Z;
  crop_confidence : F;
  crop_method : string;
  crop_guide : option salient_guide
}.

(** ** Region aggregation (the end of [detect_salient_regions]) *)

(** [min(l)] and [max(l)] on a non-empty list: the first least
    (greatest) element under [<]. *)
Definition py_min (a : F) (l : list F) : F :=
  fold_left (λ cur item, if flt item cur then item else cur) l a.
Definition py_max (a : F) (l : list F) : F :=
  fold_left (λ cur item, if flt cur item then item else cur) l a.

Definition total_confidence (rs : list region) : F :=
  fold_left (λ acc r, fadd acc (region_confidence r)) rs (float_of_int 0).

(** From [all_regions = []] to [return salient_regions]; the frame
    is [width] by [height]. *)
Definition aggregate_regions (width height : Z)
    (fs ps hs : list region) : Result salient_regions :=
  let all_regions := map region_normalized_bbox (fs ++ ps ++ hs) in
  match all_regions with
  | [] => Ok (mkSalient fs ps hs None (float_of_int 0))
  | r :: rest =>
      let min_x := py_min (nx r) (map nx rest) in
      let min_y := py_min (ny r) (map ny rest) in
      let right b := fadd (nx b) (nw b) in
      let bottom b := fadd (ny b) (nh b) in
      let max_x := py_max (right r) (map right rest) in
      let max_y := py_max (bottom r) (map bottom rest) in
      ax ← int_of_float (fmul min_x (float_of_int width));
      ay ← int_of_float (fmul min_y (float_of_int height));
      aw ← int_of_float (fmul (fsub max_x min_x) (float_of_int width));
      ah ← int_of_float (fmul (fsub max_y min_y) (float_of_int height));
      let total_regions := Z.of_nat (length (fs ++ ps ++ hs)) in
      Ok (mkSalient fs ps hs
            (Some (mkOverall
                     (mkNormBox min_x min_y (fsub max_x min_x) (fsub max_y min_y))
                     (mkPixelBox ax ay aw ah)))
            (fdiv (total_confidence (fs ++ ps ++ hs))
                  (float_of_int (Z.max 1 total_regions))))
  end.

(** ** Crop planner *)

Definition autoflip_salient : string := "autoflip_salient".
Definition center_crop_fallback : string := "center_crop_fallback".
Definition interpolated : string := "interpolated".

(** The [if]/[elif] chain on the label. *)
Definition target_ratio_of (target_aspect_ratio : string) : F :=
  if String.eqb target_aspect_ratio "9:16"
  then fdiv (float_of_int 9) (float_of_int 16)
  else if String.eqb target_aspect_ratio "16:9"
  then fdiv (float_of_int 16) (float_of_int 9)
  else if String.eqb target_aspect_ratio "1:1"
  then float_of_int 1
  else if String.eqb target_aspect_ratio "4:3"
  then fdiv (float_of_int 4) (float_of_int 3)
  else fdiv (float_of_int 9) (float_of_int 16).

Definition half (n : Z) : F := fdiv (float_of_int n) (float_of_int 2).

(** [max(0, min(v, hi))]. *)
Definition clamp (v hi : Z) : Z := Z.max 0 (Z.min v hi).

(** The dict [crop_info] starts from defaults, and each branch
    overwrites every default key with [update]: the record is built once,
    at the end of the branch taken.  [x], [y], [w] and [h] stand for
    [crop_x], [crop_y], [crop_width] and [crop_height]. *)
Definition calculate_autoflip_crop (frame_width frame_height : Z)
    (salient : salient_regions) (target_aspect_ratio : string)
    : Result crop_info :=
  let target_ratio := target_ratio_of target_aspect_ratio in
  current_ratio ← truediv (float_of_int frame_width) (float_of_int frame_height);
  match overall_bbox salient with
  | Some ob =>
      let bbox := normalized ob in
      let cx := fadd (nx bbox) (fdiv (nw bbox) (float_of_int 2)) in
      let cy := fadd (ny bbox) (fdiv (nh bbox) (float_of_int 2)) in
      '(x, y, w, h) ←
        (if flt target_ratio current_ratio then
           let h := frame_height in
           w ← int_of_float (fmul (float_of_int h) target_ratio);
           x ← int_of_float (fsub (fmul cx (float_of_int frame_width)) (half w));
           Ok (clamp x (frame_width - w), 0, w, h)
         else
           let w := frame_width in
           h ← int_of_float (fdiv (float_of_int w) target_ratio);
           y ← int_of_float (fsub (fmul cy (float_of_int frame_height)) (half h));
           Ok (0, clamp y (frame_height - h), w, h));
      Ok (mkCrop x y w h (salient_confidence salient) autoflip_salient
            (Some (mkGuide cx cy bbox)))
  | None =>
      '(x, y, w, h) ←
        (if flt target_ratio current_ratio then
           let h := frame_height in
           w ← int_of_float (fmul (float_of_int h) target_ratio);
           Ok ((frame_width - w) `div` 2, 0, w, h)
         else
           let w := frame_width in
           h ← int_of_float (fdiv (float_of_int w) target_ratio);
           Ok (0, (frame_height - h) `div` 2, w, h));
      Ok (mkCrop x y w h (fdiv (float_of_int 1) (float_of_int 10))
            center_crop_fallback None)
  end.

(** ** Temporal smoother *)

Record frame_analysis : Type := mkAnalysis {
  frame_idx : Z;
  timestamp : F;
  analysis_salient : salient_regions;
  crop_of : crop_info     (* the key ['crop_info'] *)
}.

(** An entry of the smoothed list. *)
Record smoothed_crop : Type := mkSmoothed {
  sc_frame_idx : Z;
  sc_timestamp : F;
  sc_x : Z;
  sc_y : Z;
  sc_width : Z;
  sc_height : Z;
  sc_confidence : F;
  sc_method : string
}.

(** [range(n)]: empty when [n <= 0]. *)
Definition range (n : Z) : list Z := Z.of_nat <$> seq 0 (Z.to_nat n).

(** [int(a + (b - a) * t)]. *)
Definition lerp_int (a b : Z) (t : F) : Result Z :=
  int_of_float (fadd (float_of_int a) (fmul (float_of_int (b - a)) t)).

(** [a + (b - a) * t] on floats. *)
Definition lerp (a b t : F) : F := fadd a (fmul (fsub b a) t).

(** The body of the inner loop: the entry for [current_frame + frame_offset].
    Inside [range(frame_diff)] the difference is positive, so the [else 0]
    of [interpolation_factor] is never taken.  The keys are evaluated in
    the order of the dict display: the timestamp first. *)
Definition interpolated_crop (current_analysis next_analysis : frame_analysis)
    (fps : F) (frame_offset : Z) : Result smoothed_crop :=
  let current_frame := frame_idx current_analysis in
  let next_frame := frame_idx next_analysis in
  let current_crop := crop_of current_analysis in
  let next_crop := crop_of next_analysis in
  let frame_diff := next_frame - current_frame in
  let interpolation_factor :=
    if 0 <? frame_diff
    then fdiv (float_of_int frame_offset) (float_of_int frame_diff)
    else float_of_int 0 in
  ts ← truediv (float_of_int (current_frame + frame_offset)) fps;
  x ← lerp_int (crop_x current_crop) (crop_x next_crop) interpolation_factor;
  y ← lerp_int (crop_y current_crop) (crop_y next_crop) interpolation_factor;
  w ← lerp_int (crop_width current_crop) (crop_width next_crop) interpolation_factor;
  h ← lerp_int (crop_height current_crop) (crop_height next_crop) interpolation_factor;
  Ok (mkSmoothed (current_frame + frame_offset) ts x y w h
        (lerp (crop_confidence current_crop) (crop_confidence next_crop)
              interpolation_factor)
        interpolated).

(** The inner loop, [for frame_offset in range(frame_diff)]. *)
Definition interpolate_pair (current_analysis next_analysis : frame_analysis)
    (fps : F) : Result (list smoothed_crop) :=
  mapM (interpolated_crop current_analysis next_analysis fps)
       (range (frame_idx next_analysis - frame_idx current_analysis)).

(** The outer loop, over [frame_analyses[i]] and [frame_analyses[i + 1]]. *)
Fixpoint interpolate_keyframes (fps : F) (frame_analyses : list frame_analysis)
    : Result (list smoothed_crop) :=
  match frame_analyses with
  | current_analysis :: ((next_analysis :: _) as rest) =>
      segment ← interpolate_pair current_analysis next_analysis fps;
      others ← interpolate_keyframes fps rest;
      Ok (segment ++ others)
  | _ => Ok []
  end.

(** The entry appended for [frame_analyses[-1]]. *)
Definition last_frame_crop (last_analysis : frame_analysis) : smoothed_crop :=
  let last_crop := crop_of last_analysis in
  mkSmoothed (frame_idx last_analysis) (timestamp last_analysis)
    (crop_x last_crop) (crop_y last_crop)
    (crop_width last_crop) (crop_height last_crop)
    (crop_confidence last_crop) (crop_method last_crop).

Definition smooth_crop_transitions (frame_analyses : list frame_analysis)
    (total_frames : Z) (fps : F) : Result (list smoothed_crop) :=
  match frame_analyses with
  | [] => Ok []
  | _ =>
      smoothed_crops ← interpolate_keyframes fps frame_analyses;
      Ok (smoothed_crops ++
            match last frame_analyses with
            | Some last_analysis => [last_frame_crop last_analysis]
            | None => []
            end)
  end.


(** Frame indices that never decrease along the list. *)
Definition nondecreasing (l : list frame_analysis) : Prop :=
  Sorted (λ a b, frame_idx a <= frame_idx b) l.

End Model.

Arguments PixelBox : clear implicits.
Arguments NormBox : clear implicits.
Arguments region : clear implicits.
Arguments overall : clear implicits.
Arguments salient_regions : clear implicits.
Arguments salient_guide : clear implicits.
Arguments crop_info : clear implicits.
Arguments frame_analysis : clear implicits.
Arguments smoothed_crop : clear implicits.

(** ** Driver and command line *)

Section Driver.
Context {F : Type} `{PyFloat F}.

(** A decoded frame, its [shape[:2]] (height, width), and what the
    external detectors find in it, converted to region entries (the part
    of [detect_salient_regions] before the aggregation): faces, poses,
    hands. *)
Variable Frame : Type.
Variable frame_shape : Frame → Z * Z.
Variable detect_regions :
  Frame → list (region F) * list (region F) * list (region F).

Definition detect_salient_regions (frame : Frame) : Result (salient_regions F) :=
  let '(height, width) := frame_shape frame in
  let '(fs, ps, hs) := detect_regions frame in
  aggregate_regions width height fs ps hs.

(** What [cv2.VideoCapture] reads from an openable file: the four
    properties, already through [int(...)] where the code takes it, and
    the frames [cap.read()] yields in order. *)
Record video : Type := mkVideo {
  video_fps : F;
  video_frame_count : Z;
  video_width : Z;
  video_height : Z;
  video_frames : list Frame
}.

Record processing_stats : Type := mkStats {
  total_faces_detected : Z;
  total_poses_detected : Z;
  average_confidence : F;
  frames_with_salient_content : Z
}.

Record report : Type := mkReport {
  input_path : string;
  output_path : string;
  target_aspect_ratio : string;
  original_dimensions : Z * Z;
  frame_count : Z;
  fps : F;
  sample_rate : Z;
  frame_analyses : list (frame_analysis F);
  smoothed_crops : list (smoothed_crop F);
  stats : processing_stats
}.

(** What [process_video_autoflip] returns: the dict with the key
    ['error'], or the result. *)
Inductive process_result : Type :=
| ProcessError (text : string)
| ProcessDone (r : report).

(** One constructor for each [print] of the program, with the values it
    formats. *)
Inductive message : Type :=
| MsgInputNotFound (path : string)
| MsgStarting
| MsgAnalyzing (width height count : Z) (fps : F)
| MsgSampling (sample_interval : Z)
| MsgFrame (idx : Z) (nfaces nposes : nat) (confidence : F)
| MsgError (text : string)
| MsgCompleted
| MsgSaved (path : string)
| MsgStats (s : processing_stats)
| MsgTraceback (e : exn).

Inductive file : Type :=
| VideoFile (v : video)
| OtherFile
| JsonFile (r : report).

Record world : Type := mkWorld {
  files : gmap string file;
  stdout : list message;
  stderr : list message
}.

Inductive abort : Type :=
| SystemExit (code : Z)
| Uncaught (e : exn).

Inductive step (A : Type) : Type :=
| Done (a : A)
| Stop (r : abort).
Arguments Done {A} a.
Arguments Stop {A} r.

Definition IO (A : Type) : Type := world → world * step A.

Global Instance IO_ret : MRet IO := λ A a w, (w, Done a).
Global Instance IO_bind : MBind IO := λ A B f m w,
  match m w with
  | (w', Done a) => f a w'
  | (w', Stop r) => (w', Stop r)
  end.

Definition print (m : message) : IO unit := λ w,
  (mkWorld (files w) (stdout w ++ [m]) (stderr w), Done tt).

Definition sys_exit {A} (code : Z) : IO A := λ w, (w, Stop (SystemExit code)).

Definition lift {A} (r : Result A) : IO A := λ w,
  match r with
  | Ok a => (w, Done a)
  | Raise e => (w, Stop (Uncaught e))
  end.

(** [os.path.exists]. *)
Definition path_exists (path : string) : IO bool := λ w,
  (w, Done (bool_decide (is_Some (files w !! path)))).

(** [cv2.VideoCapture(path)]; [None] when [isOpened()] is false. *)
Definition VideoCapture (path : string) : IO (option video) := λ w,
  (w, Done (match files w !! path with
            | Some (VideoFile v) => Some v
            | _ => None
            end)).

(** [with open(path, 'w') as f: json.dump(result, f, indent=2)]. *)
Definition write_json (path : string) (r : report) : IO unit := λ w,
  (mkWorld (<[path := JsonFile r]> (files w)) (stdout w) (stderr w), Done tt).

(** [a // b]. *)
Definition floordiv (a b : Z) : Result Z :=
  if b =? 0 then Raise ZeroDivisionError else Ok (a `div` b).

(** The [while True] loop: [frames] are the frames still to read. *)
Fixpoint analyze_frames (frame_width frame_height : Z) (fps : F)
    (target_aspect_ratio : string) (sample_interval : Z)
    (frames : list Frame) (frame_idx : Z)
    (frame_analyses : list (frame_analysis F)) : IO (list (frame_analysis F)) :=
  match frames with
  | [] => mret frame_analyses
  | frame :: rest =>
      frame_analyses' ←
        (if frame_idx `mod` sample_interval =? 0 then
           salient ← lift (detect_salient_regions frame);
           crop ← lift (calculate_autoflip_crop frame_width frame_height
                          salient target_aspect_ratio);
           ts ← lift (truediv (float_of_int frame_idx) fps);
           _ ← print (MsgFrame frame_idx (length (faces salient))
                        (length (poses salient)) (salient_confidence salient));
           mret (frame_analyses ++ [mkAnalysis frame_idx ts salient crop])
         else mret frame_analyses);
      analyze_frames frame_width frame_height fps target_aspect_ratio
        sample_interval rest (frame_idx + 1) frame_analyses'
  end.

Definition sum_Z (l : list Z) : Z := foldr Z.add 0 l.

Definition processing_stats_of (frame_analyses : list (frame_analysis F))
    : processing_stats :=
  mkStats
    (sum_Z ((λ fa, Z.of_nat (length (faces (analysis_salient fa)))) <$> frame_analyses))
    (sum_Z ((λ fa, Z.of_nat (length (poses (analysis_salient fa)))) <$> frame_analyses))
    (match frame_analyses with
     | [] => float_of_int 0
     | _ =>
         fdiv (fold_left (λ acc fa, fadd acc (salient_confidence (analysis_salient fa)))
                         frame_analyses (float_of_int 0))
              (float_of_int (Z.of_nat (length frame_analyses)))
     end)
    (sum_Z ((λ fa, match overall_bbox (analysis_salient fa) with
                   | Some _ => 1
                   | None => 0
                   end) <$> frame_analyses)).

Definition process_video_autoflip (input_path output_path : string)
    (target_aspect_ratio : string) (sample_rate : Z) : IO process_result :=
  cap ← VideoCapture input_path;
  match cap with
  | None => mret (ProcessError "Could not open video file")
  | Some v =>
      let fps := video_fps v in
      let frame_count := video_frame_count v in
      let frame_width := video_width v in
      let frame_height := video_height v in
      per_sample ← lift (floordiv frame_count sample_rate);
      let sample_interval := Z.max 1 per_sample in
      _ ← print (MsgAnalyzing frame_width frame_height frame_count fps);
      _ ← print (MsgSampling sample_interval);
      frame_analyses ← analyze_frames frame_width frame_height fps
                         target_aspect_ratio sample_interval (video_frames v) 0 [];
      smoothed_crops ← lift (smooth_crop_transitions frame_analyses frame_count fps);
      mret (ProcessDone
              (mkReport input_path output_path target_aspect_ratio
                 (frame_width, frame_height) frame_count fps sample_rate
                 frame_analyses smoothed_crops
                 (processing_stats_of frame_analyses)))
  end.

(** The parsed command line. *)
Record arguments : Type := mkArgs {
  input_video : string;
  output_json : string;
  aspect_ratio : string;
  arg_sample_rate : Z
}.

Definition main (args : arguments) : IO unit :=
  found ← path_exists (input_video args);
  if negb found then
    _ ← print (MsgInputNotFound (input_video args));
    sys_exit 1
  else
    _ ← print MsgStarting;
    result ← process_video_autoflip (input_video args) (output_json args)
               (aspect_ratio args) (arg_sample_rate args);
    match result with
    | ProcessError text =>
        _ ← print (MsgError text);
        sys_exit 1
    | ProcessDone r =>
        _ ← write_json (output_json args) r;
        _ ← print MsgCompleted;
        _ ← print (MsgSaved (output_json args));
        print (MsgStats (stats r))
    end.

(** The process: [main()] run to its end, with the interpreter's
    handling of [SystemExit] and of an uncaught exception (a traceback on
    stderr, status 1). *)
Definition run (args : arguments) (w : world) : world * Z :=
  match main args w with
  | (w', Done _) => (w', 0)
  | (w', Stop (SystemExit code)) => (w', code)
  | (w', Stop (Uncaught e)) =>
      (mkWorld (files w') (stdout w') (stderr w' ++ [MsgTraceback e]), 1)
  end.

End Driver.

Arguments video : clear implicits.
Arguments processing_stats : clear implicits.
Arguments report : clear implicits.
Arguments process_result : clear implicits.
Arguments message : clear implicits.
Arguments file : clear implicits.
Arguments world : clear implicits.
Arguments IO : clear implicits.
Arguments Done {A} a.
Arguments Stop {A} r.
Arguments mkVideo {F Frame}.
Arguments video_fps {F Frame} v.
Arguments video_frame_count {F Frame} v.
Arguments video_width {F Frame} v.
Arguments video_height {F Frame} v.
Arguments video_frames {F Frame} v.
Arguments VideoFile {F Frame} v.
Arguments OtherFile {F Frame}.
Arguments JsonFile {F Frame} r.
Arguments mkWorld {F Frame}.
Arguments files {F Frame} w.
Arguments stdout {F Frame} w.
Arguments stderr {F Frame} w.

(** ** Conversion of the detections (the start of [detect_salient_regions]) *)

Module MediaPipe.
Section Conversion.
Context {F : Type} `{PyFloat F}.

(** One entry of [face_results.detections]: its relative bounding box
    and [score[0]]. *)
Record detection : Type := mkDetection {
  det_xmin : F; det_ymin : F; det_width : F; det_height : F; det_score : F
}.

(** A landmark of the pose or of a hand; the code reads [visibility] on
    pose landmarks only. *)
Record landmark : Type := mkLandmark {
  lm_x : F; lm_y : F; lm_z : F; lm_visibility : F
}.

(** What [holistic.process] returns, as far as the code reads it: each
    field is [None] or a landmark list. *)
Record holistic_results : Type := mkHolistic {
  pose_landmarks : option (list landmark);
  left_hand_landmarks : option (list landmark);
  right_hand_landmarks : option (list landmark)
}.

(** The list [[int(x * width), int(y * height), int(w * width),
    int(h * height)]] of a normalized box [[x, y, w, h]]. *)
Definition pixel_box (width height : Z) (b : NormBox F) : Result PixelBox :=
  x ← int_of_float (fmul (nx b) (float_of_int width));
  y ← int_of_float (fmul (ny b) (float_of_int height));
  w ← int_of_float (fmul (nw b) (float_of_int width));
  h ← int_of_float (fmul (nh b) (float_of_int height));
  Ok (mkPixelBox x y w h).

Definition face_entry (width height : Z) (d : detection) : Result (region F) :=
  let b := mkNormBox (det_xmin d) (det_ymin d) (det_width d) (det_height d) in
  bbox ← pixel_box width height b;
  Ok (mkRegion bbox (det_score d) b).

(** [lm['visibility'] > 0.5]. *)
Definition visible (lm : landmark) : bool :=
  flt (fdiv (float_of_int 1) (float_of_int 2)) (lm_visibility lm).

(** [max(0, v)] and [min(1, v)]: the first argument, unless the second is
    beyond it.  The ints [0] and [1] are carried as floats. *)
Definition at_least_0 (v : F) : F :=
  if flt (float_of_int 0) v then v else float_of_int 0.
Definition at_most_1 (v : F) : F :=
  if flt v (float_of_int 1) then v else float_of_int 1.

(** The pose entries of a landmark list: none without a visible
    landmark, else one, whose box is the padded and clipped bounding box
    of the visible landmarks.  The key [landmarks] of the entry is read
    nowhere and is left out. *)
Definition pose_entries (width height : Z) (landmarks : list landmark)
    : Result (list (region F)) :=
  match List.filter visible landmarks with
  | [] => Ok []
  | lm :: rest =>
      let padding := fdiv (float_of_int 1) (float_of_int 10) in
      let min_x := at_least_0 (fsub (py_min (lm_x lm) (map lm_x rest)) padding) in
      let min_y := at_least_0 (fsub (py_min (lm_y lm) (map lm_y rest)) padding) in
      let max_x := at_most_1 (fadd (py_max (lm_x lm) (map lm_x rest)) padding) in
      let max_y := at_most_1 (fadd (py_max (lm_y lm) (map lm_y rest)) padding) in
      let b := mkNormBox min_x min_y (fsub max_x min_x) (fsub max_y min_y) in
      bbox ← pixel_box width height b;
      Ok [mkRegion bbox (fdiv (float_of_int 9) (float_of_int 10)) b]
  end.

(** The entry of one hand: the bounding box of its points; [min] of an
    empty list raises.  The keys [type] and [landmarks] are read nowhere
    and are left out. *)
Definition hand_entry (width height : Z) (hand_points : list landmark)
    : Result (region F) :=
  match hand_points with
  | [] => Raise ValueError
  | p :: rest =>
      let min_x := py_min (lm_x p) (map lm_x rest) in
      let max_x := py_max (lm_x p) (map lm_x rest) in
      let min_y := py_min (lm_y p) (map lm_y rest) in
      let max_y := py_max (lm_y p) (map lm_y rest) in
      let b := mkNormBox min_x min_y (fsub max_x min_x) (fsub max_y min_y) in
      bbox ← pixel_box width height b;
      Ok (mkRegion bbox (fdiv (float_of_int 8) (float_of_int 10)) b)
  end.

Definition hand_entries (width height : Z) (hand_landmarks : option (list landmark))
    : Result (list (region F)) :=
  match hand_landmarks with
  | None => Ok []
  | Some hand_points => r ← hand_entry width height hand_points; Ok [r]
  end.

(** [detect_salient_regions] on a frame of the given shape, from what the
    two detectors return for it: faces, then the pose, then the left and
    the right hand, then the aggregation. *)
Definition detect_salient_regions (height width : Z)
    (detections : list detection) (holistic : holistic_results)
    : Result (salient_regions F) :=
  fs ← mapM (face_entry width height) detections;
  ps ← match pose_landmarks holistic with
       | None => Ok []
       | Some landmarks => pose_entries width height landmarks
       end;
  ls ← hand_entries width height (left_hand_landmarks holistic);
  rs ← hand_entries width height (right_hand_landmarks holistic);
  aggregate_regions width height fs ps (ls ++ rs).

End Conversion.
End MediaPipe.

Arguments MediaPipe.detection : clear implicits.
Arguments MediaPipe.landmark : clear implicits.
Arguments MediaPipe.holistic_results : clear implicits.

(** ** Vocabulary of the properties *)

Definition in_frame (fw fh x y w h : Z) : Prop :=
  0 <= x ∧ 0 <= y ∧ x + w <= fw ∧ y + h <= fh.

Definition crop_in_frame {F} (fw fh : Z) (c : crop_info F) : Prop :=
  in_frame fw fh (crop_x c) (crop_y c) (crop_width c) (crop_height c).

Definition smoothed_in_frame {F} (fw fh : Z) (c : smoothed_crop F) : Prop :=
  in_frame fw fh (sc_x c) (sc_y c) (sc_width c) (sc_height c).

Definition current_ratio (fw fh : Z) : Qc := (Qc_of_Z fw / Qc_of_Z fh)%Qc.

(** The two branches of the planner: the crop keeps the frame's height
    and narrows its width, or keeps the width and shortens the height.
    [salient] tells whether a region guides the position. *)
Inductive planned (fw fh : Z) (tr : Qc) (salient : bool) : Z → Z → Z → Z → Prop :=
| planned_narrow x :
    Qcltb tr (current_ratio fw fh) = true →
    (if salient then ∃ v, x = clamp v (fw - Qctrunc (Qc_of_Z fh * tr))
     else x = (fw - Qctrunc (Qc_of_Z fh * tr)) `div` 2) →
    planned fw fh tr salient x 0 (Qctrunc (Qc_of_Z fh * tr)) fh
| planned_short y :
    Qcltb tr (current_ratio fw fh) = false →
    (if salient then ∃ v, y = clamp v (fh - Qctrunc (Qc_of_Z fw / tr))
     else y = (fh - Qctrunc (Qc_of_Z fw / tr)) `div` 2) →
    planned fw fh tr salient 0 y fw (Qctrunc (Qc_of_Z fw / tr)).

(** [interpolation_factor] of the slot [k] between [a] and [b]. *)
Definition slot_factor (a b : frame_analysis Qc) (k : Z) : Qc :=
  if 0 <? frame_idx b - frame_idx a
  then (Qc_of_Z k / Qc_of_Z (frame_idx b - frame_idx a))%Qc
  else Qc_of_Z 0.

Definition lerp_trunc (u v : Z) (t : Qc) : Z :=
  Qctrunc (Qc_of_Z u + Qc_of_Z (v - u) * t)%Qc.

Definition valid_labels : list string := ["9:16"; "16:9"; "1:1"; "4:3"].

(** The integer fields and the method of a crop. *)
Definition crop_summary {F} (c : crop_info F) : Z * Z * Z * Z * string :=
  (crop_x c, crop_y c, crop_width c, crop_height c, crop_method c).

(** What the reading loop records for a sampled frame: the frame at its
    index among [frames], which start at index [first], with the
    timestamp [frame_idx / fps], the salience detected in that frame and
    the crop planned for it. *)
Definition sampled {F} `{PyFloat F} {Frame : Type} (frame_shape : Frame → Z * Z)
    (detect_regions : Frame → list (region F) * list (region F) * list (region F))
    (frames : list Frame) (first fw fh : Z) (fps : F) (label : string)
    (a : frame_analysis F) : Prop :=
  first <= frame_idx a ∧
  truediv (float_of_int (frame_idx a)) fps = Ok (timestamp a) ∧
  ∃ frame,
    frames !! Z.to_nat (frame_idx a - first) = Some frame ∧
    detect_salient_regions Frame frame_shape detect_regions frame
    = Ok (analysis_salient a) ∧
    calculate_autoflip_crop fw fh (analysis_salient a) label = Ok (crop_of a).

(** The pixel box of an entry is the pixel box of its normalized box. *)
Definition consistent {F} `{PyFloat F} (width height : Z) (r : region F) : Prop :=
  MediaPipe.pixel_box width height (region_normalized_bbox r) = Ok (region_bbox r).

(** A box inside the unit square, with sides that are not negative. *)
Definition in_unit_square (b : NormBox Qc) : Prop :=
  (0 <= nx b)%Q ∧ (0 <= ny b)%Q ∧ (0 <= nw b)%Q ∧ (0 <= nh b)%Q ∧
  (nx b + nw b <= 1)%Q ∧ (ny b + nh b <= 1)%Q.

Definition point_in_box (x y : Qc) (b : NormBox Qc) : Prop :=
  (nx b <= x)%Q ∧ (x <= nx b + nw b)%Q ∧ (ny b <= y)%Q ∧ (y <= ny b + nh b)%Q.

(** A pixel box with sides that are not negative, inside a frame of
    [fw] by [fh] pixels. *)
Definition pixel_in_frame (fw fh : Z) (b : PixelBox) : Prop :=
  0 <= px b ∧ 0 <= py b ∧ 0 <= pw b ∧ 0 <= ph b ∧
  px b + pw b <= fw ∧ py b + ph b <= fh.

(** ** Sample inputs *)

Definition no_regions : salient_regions Qc := mkSalient [] [] [] None (Qc_of_Z 0).

Definition face_box : NormBox Qc :=
  mkNormBox (Q2Qc (2 # 5)) (Q2Qc (2 # 5)) (Q2Qc (1 # 5)) (Q2Qc (1 # 5)).

(** The only region of the portrait scenario: a face on a 1920x1080
    frame, with some confidence. *)
Definition face (c : Qc) : region Qc :=
  mkRegion (mkPixelBox 768 432 384 216) c face_box.

(** The double written [0.n] in Python. *)
Definition tenths (n : Z) : float :=
  PrimFloat.div (Binary64.of_Z n) (Binary64.of_Z 10).

Definition face64 : region float :=
  mkRegion (mkPixelBox 768 432 384 216) (tenths 9)
    (mkNormBox (tenths 4) (tenths 4) (tenths 2) (tenths 2)).

Definition no_regions64 : salient_regions float :=
  mkSalient [] [] [] None (Binary64.of_Z 0).

Definition fallback_crop : crop_info Qc :=
  mkCrop 656 0 607 1080 (Q2Qc (1 # 10)) center_crop_fallback None.

Definition salient_crop : crop_info Qc :=
  mkCrop 100 0 607 1080 (Q2Qc (9 # 10)) autoflip_salient
    (Some (mkGuide (Q2Qc (1 # 5)) (Q2Qc (1 # 2)) face_box)).

Definition three_keyframes : list (frame_analysis Qc) :=
  [mkAnalysis 0 (Qc_of_Z 0) no_regions fallback_crop;
   mkAnalysis 3 (Q2Qc (1 # 10)) no_regions salient_crop;
   mkAnalysis 5 (Q2Qc (1 # 6)) no_regions fallback_crop].

Definition two_frames : video Qc unit := mkVideo (Qc_of_Z 30) 2 1920 1080 [tt; tt].

Definition shape_1080p (frame : unit) : Z * Z := (1080, 1920).

Definition detect_nothing (frame : unit)
    : list (region Qc) * list (region Qc) * list (region Qc) := ([], [], []).

Definition example_args : arguments := mkArgs "in.mp4" "out.json" "9:16" 30.

(** Two keyframes next to each other, in the list's order, with frame
    indices that increase. *)
Definition has_gap {F} (l : list (frame_analysis F)) : Prop :=
  ∃ (i : nat) a b, l !! i = Some a ∧ l !! S i = Some b ∧ frame_idx a < frame_idx b.

(** Frame indices that increase along the list. *)
Definition increasing {F} (l : list (frame_analysis F)) : Prop :=
  Sorted (λ a b, frame_idx a < frame_idx b) l.

(** The four integer fields of a rectangle. *)
Inductive axis : Set := AxisX | AxisY | AxisWidth | AxisHeight.

Definition crop_get {F} (ax : axis) (c : crop_info F) : Z :=
  match ax with
  | AxisX => crop_x c
  | AxisY => crop_y c
  | AxisWidth => crop_width c
  | AxisHeight => crop_height c
  end.

Definition smoothed_get {F} (ax : axis) (c : smoothed_crop F) : Z :=
  match ax with
  | AxisX => sc_x c
  | AxisY => sc_y c
  | AxisWidth => sc_width c
  | AxisHeight => sc_height c
  end.

(** What the planner returns for a 1920x1080 frame without regions and
    the label "9:16". *)
Definition portrait_fallback : crop_info Qc :=
  mkCrop 656 0 607 1080 (Qc_of_Z 1 / Qc_of_Z 10)%Qc center_crop_fallback None.

(** The salience of the portrait scenario, with confidence 0.9. *)
Definition face_salience : salient_regions Qc :=
  mkSalient [face (Q2Qc (9 # 10))] [] []
    (Some (mkOverall face_box (mkPixelBox 768 432 384 216))) (Q2Qc (9 # 10)).

(** What the planner returns for it on a 1920x1080 frame with "9:16". *)
Definition portrait_salient : crop_info Qc :=
  mkCrop 656 0 607 1080 (Q2Qc (9 # 10)) autoflip_salient
    (Some (mkGuide (nx face_box + nw face_box / Qc_of_Z 2)%Qc
                   (ny face_box + nh face_box / Qc_of_Z 2)%Qc face_box)).

(** Two planner crops of one 1920x1080 video, at frames 0 and 4. *)
Definition two_planned : list (frame_analysis Qc) :=
  [mkAnalysis 0 (Qc_of_Z 0) no_regions portrait_fallback;
   mkAnalysis 4 (Q2Qc (2 # 15)) face_salience portrait_salient].

(** A face detection on the box of [face_box], with score 0.9. *)
Definition seen_face : MediaPipe.detection Qc :=
  MediaPipe.mkDetection (Q2Qc (2 # 5)) (Q2Qc (2 # 5)) (Q2Qc (1 # 5)) (Q2Qc (1 # 5))
    (Q2Qc (9 # 10)).

(** A visible pose landmark at the centre of the frame, and one that is
    not visible. *)
Definition shoulder : MediaPipe.landmark Qc :=
  MediaPipe.mkLandmark (Q2Qc (1 # 2)) (Q2Qc (1 # 2)) (Q2Qc 0) (Q2Qc (9 # 10)).
Definition hidden_ankle : MediaPipe.landmark Qc :=
  MediaPipe.mkLandmark (Q2Qc (1 # 2)) (Q2Qc (19 # 20)) (Q2Qc 0) (Q2Qc (1 # 10)).

(** Two landmarks of a hand. *)
Definition fingertip : MediaPipe.landmark Qc :=
  MediaPipe.mkLandmark (Q2Qc (3 # 10)) (Q2Qc (3 # 5)) (Q2Qc 0) (Q2Qc 0).
Definition wrist : MediaPipe.landmark Qc :=
  MediaPipe.mkLandmark (Q2Qc (7 # 20)) (Q2Qc (7 # 10)) (Q2Qc 0) (Q2Qc 0).

(** A pose and a left hand. *)
Definition waving : MediaPipe.holistic_results Qc :=
  MediaPipe.mkHolistic (Some [shoulder; hidden_ankle]) (Some [fingertip; wrist]) None.

(** A left hand without a landmark. *)
Definition empty_hand : MediaPipe.holistic_results Qc :=
  MediaPipe.mkHolistic None (Some []) None.

(** The files of a run on the video [two_frames]. *)
Definition with_video : world Qc unit :=
  mkWorld {["in.mp4"%string := VideoFile two_frames]} [] [].

Definition zero_rate_args : arguments := mkArgs "in.mp4" "out.json" "9:16" 0.

(** A video of one frame whose container reports 0 fps. *)
Definition zero_fps_video : video Qc unit := mkVideo (Q2Qc 0) 1 1920 1080 [tt].

(** * Properties *)

(** ** Truncation of rationals *)

Lemma Qtrunc_floor (q : Q) : (0 <= q)%Q → Qtrunc q = Qfloor q.
Proof.
  destruct q as [n d]. unfold Qle, Qtrunc, Qfloor. simpl. intros Hn.
  apply Z.quot_div_nonneg; lia.
Qed.

Lemma Qtrunc_ceiling (q : Q) : (q <= 0)%Q → Qtrunc q = Qceiling q.
Proof.
  destruct q as [n d]. unfold Qle, Qtrunc, Qceiling, Qfloor. simpl. intros Hn.
  rewrite <- (Z.opp_involutive n) at 1.
  rewrite Z.quot_opp_l by lia. f_equal.
  apply Z.quot_div_nonneg; lia.
Qed.

Global Instance Qtrunc_comp : Proper (Qeq ==> eq) Qtrunc.
Proof.
  intros p q Hpq. destruct (Qlt_le_dec p 0) as [Hneg | Hpos].
  - rewrite !Qtrunc_ceiling.
    + now rewrite Hpq.
    + rewrite <- Hpq. now apply Qlt_le_weak.
    + now apply Qlt_le_weak.
  - rewrite !Qtrunc_floor.
    + now rewrite Hpq.
    + now rewrite <- Hpq.
    + assumption.
Qed.

Lemma Qtrunc_inject_Z (n : Z) : Qtrunc (inject_Z n) = n.
Proof. unfold Qtrunc. simpl. apply Z.quot_1_r. Qed.

(** [int(q)] is within one of [q], on the side of zero. *)
Lemma Qtrunc_nonneg (q : Q) : (0 <= q)%Q → 0 <= Qtrunc q.
Proof.
  intros Hq. rewrite Qtrunc_floor by assumption.
  rewrite <- (Qfloor_Z 0). now apply Qfloor_resp_le.
Qed.

Lemma Qtrunc_le_nonneg (q : Q) : (0 <= q)%Q → (inject_Z (Qtrunc q) <= q)%Q.
Proof. intros Hq. rewrite Qtrunc_floor by assumption. apply Qfloor_le. Qed.

Lemma Qtrunc_lt_succ (q : Q) : (q < inject_Z (Qtrunc q) + 1)%Q.
Proof.
  destruct (Qlt_le_dec q 0) as [Hneg | Hpos].
  - rewrite Qtrunc_ceiling by now apply Qlt_le_weak.
    apply Qle_lt_trans with (inject_Z (Qceiling q)); [apply Qle_ceiling|].
    rewrite <- (Qplus_0_r (inject_Z (Qceiling q))) at 1.
    apply Qplus_lt_r. reflexivity.
  - rewrite Qtrunc_floor by assumption.
    generalize (Qlt_floor q). rewrite inject_Z_plus. trivial.
Qed.

Lemma Qtrunc_gt_pred (q : Q) : (inject_Z (Qtrunc q) - 1 < q)%Q.
Proof.
  destruct (Qlt_le_dec q 0) as [Hneg | Hpos].
  - rewrite Qtrunc_ceiling by now apply Qlt_le_weak.
    generalize (Qceiling_lt q). unfold Z.sub. rewrite inject_Z_plus. trivial.
  - rewrite Qtrunc_floor by assumption.
    apply Qlt_le_trans with (inject_Z (Qfloor q)); [|apply Qfloor_le].
    rewrite <- (Qplus_0_r (inject_Z (Qfloor q))) at 2.
    apply Qplus_lt_r. reflexivity.
Qed.

Lemma Qtrunc_mono (p q : Q) : (p <= q)%Q → Qtrunc p <= Qtrunc q.
Proof.
  intros Hpq. destruct (Qlt_le_dec q 0) as [Hq | Hq].
  - rewrite !Qtrunc_ceiling.
    + now apply Qceiling_resp_le.
    + now apply Qlt_le_weak.
    + apply Qle_trans with q; [assumption | now apply Qlt_le_weak].
  - destruct (Qlt_le_dec p 0) as [Hp | Hp].
    + apply Z.le_trans with 0.
      * rewrite Qtrunc_ceiling by now apply Qlt_le_weak.
        rewrite <- (Qceiling_Z 0). apply Qceiling_resp_le. now apply Qlt_le_weak.
      * now apply Qtrunc_nonneg.
    + rewrite !Qtrunc_floor by assumption. now apply Qfloor_resp_le.
Qed.

Lemma Qtrunc_le_Z (q : Q) (n : Z) : (q <= inject_Z n)%Q → Qtrunc q <= n.
Proof. intros Hq. rewrite <- (Qtrunc_inject_Z n). now apply Qtrunc_mono. Qed.

(** ** From canonical rationals to rationals *)

Lemma Qcltb_lt (x y : Qc) : Qcltb x y = true ↔ (x < y)%Q.
Proof. unfold Qcltb, Qlt. apply Z.ltb_lt. Qed.

Lemma Qcltb_ge (x y : Qc) : Qcltb x y = false ↔ (y <= x)%Q.
Proof. unfold Qcltb, Qle. rewrite Z.ltb_ge. reflexivity. Qed.

Lemma Qcis_zero_of_Z (n : Z) : Qcis_zero (Qc_of_Z n) = (n =? 0).
Proof. reflexivity. Qed.

Lemma Qcis_zero_spec (x : Qc) : Qcis_zero x = true ↔ x = Q2Qc 0.
Proof.
  unfold Qcis_zero. rewrite Z.eqb_eq. split.
  - intros Hn. apply Qc_is_canon. simpl. unfold Qeq. simpl. lia.
  - intros ->. reflexivity.
Qed.

Lemma this_plus (x y : Qc) : ((x + y)%Qc == (x : Q) + y)%Q.
Proof. apply Qred_correct. Qed.
Lemma this_minus (x y : Qc) : ((x - y)%Qc == (x : Q) - y)%Q.
Proof.
  unfold Qcminus. rewrite this_plus. unfold Qcopp, Q2Qc, this.
  rewrite Qred_correct. reflexivity.
Qed.
Lemma this_mult (x y : Qc) : ((x * y)%Qc == (x : Q) * y)%Q.
Proof. apply Qred_correct. Qed.
Lemma this_div (x y : Qc) : ((x / y)%Qc == (x : Q) / y)%Q.
Proof.
  unfold Qcdiv. rewrite this_mult. unfold Qcinv, Q2Qc, this.
  rewrite Qred_correct. reflexivity.
Qed.

Ltac to_Q :=
  repeat first
    [ rewrite this_plus | rewrite this_minus | rewrite this_mult | rewrite this_div ];
  change (this (Qc_of_Z ?n)) with (inject_Z n).

(** ** Order facts on rationals *)

Lemma inject_Z_pos (n : Z) : 0 < n → (0 < inject_Z n)%Q.
Proof. intros Hn. now rewrite <- (Zlt_Qlt 0). Qed.

Lemma Qdiv_mult_cancel (a c : Q) : (0 < c)%Q → (a / c * c == a)%Q.
Proof. intros Hc. field. intros Hz. rewrite Hz in Hc. discriminate. Qed.

Lemma Qlt_div_mult (a b c : Q) : (0 < c)%Q → (a < b / c)%Q → (a * c < b)%Q.
Proof.
  intros Hc Hlt. rewrite <- (Qdiv_mult_cancel b c Hc).
  now apply Qmult_lt_r.
Qed.

Lemma Qle_div_mult (a b c : Q) : (0 < c)%Q → (b / c <= a)%Q → (b <= a * c)%Q.
Proof.
  intros Hc Hle. rewrite <- (Qdiv_mult_cancel b c Hc).
  now apply Qmult_le_r.
Qed.

(** A point between [a] and [b] is bounded as they are. *)
Lemma lerp_lower (lo a b t : Q) :
  (lo <= a)%Q → (lo <= b)%Q → (0 <= t)%Q → (t <= 1)%Q → (lo <= a + (b - a) * t)%Q.
Proof. intros. nra. Qed.

Lemma lerp_upper (hi a b t : Q) :
  (a <= hi)%Q → (b <= hi)%Q → (0 <= t)%Q → (t <= 1)%Q → (a + (b - a) * t <= hi)%Q.
Proof. intros. nra. Qed.

(** The fraction [offset / frame_diff] of a slot of [range(frame_diff)]. *)
Lemma slot_fraction (offset frame_diff : Z) :
  0 <= offset < frame_diff →
  (0 <= inject_Z offset / inject_Z frame_diff)%Q ∧
  (inject_Z offset / inject_Z frame_diff <= 1)%Q.
Proof.
  intros [Ho Hd].
  assert (Hpos : (0 < inject_Z frame_diff)%Q) by (apply inject_Z_pos; lia).
  split.
  - apply Qle_shift_div_l; [assumption|]. rewrite Qmult_0_l.
    rewrite <- (Zle_Qle 0). assumption.
  - apply Qle_shift_div_r; [assumption|]. rewrite Qmult_1_l.
    rewrite <- Zle_Qle. lia.
Qed.

(** Two truncated interpolations, of an offset and of an extent, stay
    within the bound their endpoints respect. *)
Lemma lerp_pair_fits (a1 b1 a2 b2 bound : Z) (t : Q) :
  (0 <= t)%Q → (t <= 1)%Q →
  0 <= a1 → 0 <= b1 → a1 + a2 <= bound → b1 + b2 <= bound →
  0 <= Qtrunc (inject_Z a1 + inject_Z (b1 - a1) * t) ∧
  Qtrunc (inject_Z a1 + inject_Z (b1 - a1) * t)
    + Qtrunc (inject_Z a2 + inject_Z (b2 - a2) * t) <= bound.
Proof.
  intros Ht0 Ht1 Ha Hb Hab1 Hab2.
  set (X := (inject_Z a1 + inject_Z (b1 - a1) * t)%Q).
  set (W := (inject_Z a2 + inject_Z (b2 - a2) * t)%Q).
  assert (HX : (0 <= X)%Q).
  { unfold X. unfold Z.sub. rewrite inject_Z_plus, inject_Z_opp.
    apply lerp_lower; try assumption; rewrite <- (Zle_Qle 0); assumption. }
  assert (HXW : (X + W <= inject_Z bound)%Q).
  { setoid_replace (X + W)%Q
      with (inject_Z (a1 + a2) + (inject_Z (b1 + b2) - inject_Z (a1 + a2)) * t)%Q
      using relation Qeq.
    - apply lerp_upper; try assumption; rewrite <- Zle_Qle; assumption.
    - unfold X, W, Z.sub. rewrite !inject_Z_plus, !inject_Z_opp. ring. }
  split; [now apply Qtrunc_nonneg|].
  pose proof (Qtrunc_le_nonneg X HX) as Hx.
  pose proof (Qtrunc_gt_pred W) as Hw.
  assert (Hlt : (inject_Z (Qtrunc X + Qtrunc W) < inject_Z (bound + 1))%Q).
  { rewrite !inject_Z_plus. change (inject_Z 1) with 1%Q.
    clearbody X W. lra. }
  rewrite <- Zlt_Qlt in Hlt. lia.
Qed.

(** The planner's reduced extent fits the frame. *)
Lemma narrowed_width_fits (fw fh : Z) (T : Q) :
  0 < fh → (T < inject_Z fw / inject_Z fh)%Q → Qtrunc (inject_Z fh * T) <= fw.
Proof.
  intros Hh Hlt. apply Qtrunc_le_Z, Qlt_le_weak.
  rewrite Qmult_comm. apply Qlt_div_mult; [now apply inject_Z_pos | assumption].
Qed.

Lemma shortened_height_fits (fw fh : Z) (T : Q) :
  0 < fh → (0 < T)%Q → (inject_Z fw / inject_Z fh <= T)%Q →
  Qtrunc (inject_Z fw / T) <= fh.
Proof.
  intros Hh HT Hle. apply Qtrunc_le_Z.
  apply Qle_shift_div_r; [assumption|]. rewrite Qmult_comm.
  apply Qle_div_mult; [now apply inject_Z_pos | assumption].
Qed.

(** ** The shape of the smoother's output *)

Lemma last_cons_default {A} (l : list A) (a b : A) :
  List.last (b :: l) a = List.last l b.
Proof.
  revert a b. induction l as [|c l IH]; intros a b; [reflexivity|].
  change (List.last (b :: c :: l) a) with (List.last (c :: l) a).
  rewrite (IH a c), (IH b c). reflexivity.
Qed.

Lemma last_elem_of {A} (l : list A) (a : A) : List.last l a ∈ a :: l.
Proof.
  revert a. induction l as [|b l IH]; intros a; [left|].
  rewrite last_cons_default. right. apply IH.
Qed.

Lemma last_cons_Some {A} (l : list A) (a : A) :
  last (a :: l) = Some (List.last l a).
Proof.
  revert a. induction l as [|b l IH]; intros a; [reflexivity|].
  change (last (a :: b :: l)) with (last (b :: l)).
  rewrite IH, last_cons_default. reflexivity.
Qed.

Section Shape.
Context {F : Type} `{PyFloat F}.
Implicit Types (l : list (frame_analysis F)) (out : list (smoothed_crop F)).

Lemma mapM_Ok {A B} (f : A → Result B) (xs : list A) (ys : list B) :
  mapM f xs = Ok ys ↔ Forall2 (λ x y, f x = Ok y) xs ys.
Proof.
  revert ys. induction xs as [|x xs IH]; intros ys; simpl.
  - split.
    + intros [= <-]. constructor.
    + intros Hnil. now inversion Hnil.
  - split.
    + destruct (f x) as [y|e] eqn:Hfx; simpl; [|discriminate].
      destruct (mapM f xs) as [ys'|e] eqn:Hxs; simpl; [|discriminate].
      intros [= <-]. constructor; [assumption | now apply IH].
    + intros Hcons. inversion Hcons as [|? y ? ys' Hfx Hrest]; subst.
      rewrite Hfx. simpl. apply IH in Hrest. rewrite Hrest. reflexivity.
Qed.

Lemma mapM_total {A B} (f : A → Result B) (xs : list A) :
  (∀ x, x ∈ xs → ∃ y, f x = Ok y) → ∃ ys, mapM f xs = Ok ys.
Proof.
  induction xs as [|x xs IH]; intros Hall; simpl.
  - now exists [].
  - destruct (Hall x) as [y Hy]; [left|].
    destruct IH as [ys Hys]; [intros x' Hx'; apply Hall; now right|].
    exists (y :: ys). rewrite Hy. simpl. rewrite Hys. reflexivity.
Qed.

Lemma elem_of_range (n k : Z) : k ∈ range n ↔ 0 <= k < n.
Proof.
  unfold range. rewrite list_elem_of_fmap. split.
  - intros (i & -> & Hi). apply elem_of_seq in Hi. lia.
  - intros Hk. exists (Z.to_nat k). split; [lia|]. apply elem_of_seq. lia.
Qed.

Lemma length_range (n : Z) : length (range n) = Z.to_nat n.
Proof. unfold range. now rewrite length_fmap, length_seq. Qed.

Lemma lookup_range (n : Z) (i : nat) :
  (i < Z.to_nat n)%nat → range n !! i = Some (Z.of_nat i).
Proof.
  intros Hi. unfold range. rewrite list_lookup_fmap, lookup_seq_lt by assumption.
  reflexivity.
Qed.

(** One segment has a slot for each frame from the current keyframe up
    to, and without, the next. *)
Lemma interpolate_pair_length (a b : frame_analysis F) (fps : F) out :
  interpolate_pair a b fps = Ok out →
  length out = Z.to_nat (frame_idx b - frame_idx a).
Proof.
  unfold interpolate_pair. rewrite mapM_Ok. intros Hall.
  apply Forall2_length in Hall. now rewrite <- Hall, length_range.
Qed.

Lemma interpolate_pair_Forall (P : smoothed_crop F → Prop)
    (a b : frame_analysis F) (fps : F) out :
  (∀ k c, 0 <= k < frame_idx b - frame_idx a →
          interpolated_crop a b fps k = Ok c → P c) →
  interpolate_pair a b fps = Ok out → Forall P out.
Proof.
  intros Hslot. unfold interpolate_pair. rewrite mapM_Ok. intros Hall.
  apply Forall_forall. intros c Hc.
  apply list_elem_of_lookup in Hc as [i Hi].
  destruct (Forall2_lookup_r _ _ _ _ _ Hall Hi) as (k & Hk & Hkc).
  apply (Hslot k); [|assumption].
  apply elem_of_range, list_elem_of_lookup. now exists i.
Qed.

Lemma interpolate_pair_total (a b : frame_analysis F) (fps : F) :
  (∀ k, 0 <= k < frame_idx b - frame_idx a →
        ∃ c, interpolated_crop a b fps k = Ok c) →
  ∃ out, interpolate_pair a b fps = Ok out.
Proof.
  intros Hslot. apply mapM_total. intros k Hk. apply Hslot.
  now apply elem_of_range.
Qed.

(** Unfolding of the outer loop on two or more keyframes. *)
Lemma interpolate_keyframes_cons (fps : F) (a b : frame_analysis F) l :
  interpolate_keyframes fps (a :: b :: l) =
    (segment ← interpolate_pair a b fps;
     others ← interpolate_keyframes fps (b :: l);
     Ok (segment ++ others)).
Proof. reflexivity. Qed.

Lemma interpolate_keyframes_Ok (fps : F) (a b : frame_analysis F) l out :
  interpolate_keyframes fps (a :: b :: l) = Ok out →
  ∃ segment others,
    interpolate_pair a b fps = Ok segment ∧
    interpolate_keyframes fps (b :: l) = Ok others ∧
    out = segment ++ others.
Proof.
  rewrite interpolate_keyframes_cons.
  destruct (interpolate_pair a b fps) as [segment|e];
    cbn [mbind Result_bind]; [|discriminate].
  destruct (interpolate_keyframes fps (b :: l)) as [others|e];
    cbn [mbind Result_bind]; [|discriminate].
  intros [= <-]. now exists segment, others.
Qed.

Lemma interpolate_keyframes_length (fps : F) (a : frame_analysis F) l out :
  nondecreasing (a :: l) →
  interpolate_keyframes fps (a :: l) = Ok out →
  Z.of_nat (length out) = frame_idx (List.last l a) - frame_idx a.
Proof.
  revert a out. induction l as [|b l IH]; intros a out Hsorted.
  - simpl. intros [= <-]. simpl. lia.
  - intros Hout.
    apply interpolate_keyframes_Ok in Hout as (segment & others & Hseg & Hrest & ->).
    apply Sorted_inv in Hsorted as [Hsorted Hhd].
    apply HdRel_inv in Hhd.
    apply interpolate_pair_length in Hseg.
    apply (IH b others Hsorted) in Hrest.
    rewrite length_app, Nat2Z.inj_add, Hseg, Hrest.
    rewrite last_cons_default. lia.
Qed.

Lemma interpolate_keyframes_Forall (P : smoothed_crop F → Prop)
    (K : frame_analysis F → Prop) (fps : F) l out :
  (∀ a b k c, K a → K b → 0 <= k < frame_idx b - frame_idx a →
              interpolated_crop a b fps k = Ok c → P c) →
  Forall K l →
  interpolate_keyframes fps l = Ok out → Forall P out.
Proof.
  intros Hslot. revert out. induction l as [|a l IH]; intros out Hall.
  - intros [= <-]. constructor.
  - destruct l as [|b l].
    + intros [= <-]. constructor.
    + intros Hout.
      apply interpolate_keyframes_Ok in Hout as (segment & others & Hseg & Hrest & ->).
      apply Forall_cons in Hall as [Ha Hall].
      apply Forall_app. split.
      * apply (interpolate_pair_Forall P a b fps); [|assumption].
        intros k c. apply Hslot; [assumption|].
        now apply Forall_cons in Hall as [Hb _].
      * now apply IH.
Qed.

Lemma interpolate_keyframes_total (fps : F) l :
  (∀ a b k, ∃ c, interpolated_crop a b fps k = Ok c) →
  ∃ out, interpolate_keyframes fps l = Ok out.
Proof.
  intros Hslot. induction l as [|a l IH].
  - now exists [].
  - destruct l as [|b l].
    + now exists [].
    + destruct (interpolate_pair_total a b fps) as [segment Hseg].
      { intros k _. apply Hslot. }
      destruct IH as [others Hrest].
      exists (segment ++ others).
      rewrite interpolate_keyframes_cons, Hseg. cbn [mbind Result_bind].
      rewrite Hrest. reflexivity.
Qed.

(** The smoother on a non-empty list: the segments, then the last
    keyframe's crop. *)
Lemma smooth_crop_transitions_Ok (a : frame_analysis F) l (total : Z) (fps : F) out :
  smooth_crop_transitions (a :: l) total fps = Ok out ↔
  ∃ segments, interpolate_keyframes fps (a :: l) = Ok segments ∧
              out = segments ++ [last_frame_crop (List.last l a)].
Proof.
  unfold smooth_crop_transitions.
  rewrite last_cons_Some.
  destruct (interpolate_keyframes fps (a :: l)) as [segments|e]; simpl.
  - split.
    + intros [= <-]. now exists segments.
    + intros (? & [= <-] & ->). reflexivity.
  - split; [discriminate|]. intros (? & [=] & _).
Qed.

Lemma smooth_length (a : frame_analysis F) l (total : Z) (fps : F) out :
  nondecreasing (a :: l) →
  smooth_crop_transitions (a :: l) total fps = Ok out →
  Z.of_nat (length out) = frame_idx (List.last l a) - frame_idx a + 1.
Proof.
  intros Hsorted. rewrite smooth_crop_transitions_Ok. intros (segments & Hseg & ->).
  apply interpolate_keyframes_length in Hseg; [|assumption].
  rewrite length_app, Nat2Z.inj_add, Hseg. simpl. lia.
Qed.

(** With a repeated frame index there is no slot to interpolate: the
    output is the second keyframe's crop alone. *)
Lemma smooth_duplicate_index (a b : frame_analysis F) (total : Z) (fps : F) :
  frame_idx a = frame_idx b →
  smooth_crop_transitions [a; b] total fps = Ok [last_frame_crop b].
Proof.
  intros Hidx. unfold smooth_crop_transitions, interpolate_keyframes, interpolate_pair.
  rewrite Hidx, Z.sub_diag. reflexivity.
Qed.

Lemma interpolated_crop_frame_idx (a b : frame_analysis F) (fps : F) (k : Z) c :
  interpolated_crop a b fps k = Ok c → sc_frame_idx c = frame_idx a + k.
Proof.
  unfold interpolated_crop.
  destruct (truediv _ fps) as [ts|e]; cbn [mbind Result_bind]; [|discriminate].
  repeat match goal with
         | |- context [lerp_int ?u ?v ?t ≫= _] =>
             destruct (lerp_int u v t); cbn [mbind Result_bind]; [|discriminate]
         end.
  intros [= <-]. reflexivity.
Qed.

(** Every produced crop is for a frame no later than some keyframe. *)
Lemma smooth_frame_idx_bounded l (total : Z) (fps : F) out :
  smooth_crop_transitions l total fps = Ok out →
  Forall (λ c, ∃ a, a ∈ l ∧ sc_frame_idx c <= frame_idx a) out.
Proof.
  destruct l as [|a l].
  - intros [= <-]. constructor.
  - rewrite smooth_crop_transitions_Ok. intros (segments & Hseg & ->).
    apply Forall_app. split.
    + revert Hseg.
      apply (interpolate_keyframes_Forall _ (λ b, b ∈ a :: l)).
      * intros ka kb k c _ Hkb Hk Hc. exists kb. split; [assumption|].
        apply interpolated_crop_frame_idx in Hc. lia.
      * apply Forall_forall. auto.
    + constructor; [|constructor].
      exists (List.last l a). split; [apply last_elem_of | reflexivity].
Qed.

Lemma nondecreasing_le_last (a : frame_analysis F) l b :
  nondecreasing (a :: l) → b ∈ a :: l → frame_idx b <= frame_idx (List.last l a).
Proof.
  revert a b. induction l as [|c l IH]; intros a b Hsorted Hb.
  - apply list_elem_of_singleton in Hb as ->. reflexivity.
  - apply Sorted_inv in Hsorted as [Hsorted Hhd]. apply HdRel_inv in Hhd.
    rewrite last_cons_default.
    apply elem_of_cons in Hb as [-> | Hb].
    + etrans; [exact Hhd|]. apply IH; [assumption | left].
    + now apply IH.
Qed.

End Shape.

(** ** The planner over exact rationals *)

Lemma planner_spec (fw fh : Z) (s : salient_regions Qc) (label : string) :
  fh ≠ 0 →
  ∃ c, calculate_autoflip_crop fw fh s label = Ok c ∧
       planned fw fh (target_ratio_of label) (bool_decide (is_Some (overall_bbox s)))
         (crop_x c) (crop_y c) (crop_width c) (crop_height c).
Proof.
  intros Hfh. unfold calculate_autoflip_crop, truediv.
  cbn [fis_zero Qc_PyFloat float_of_int]. rewrite Qcis_zero_of_Z.
  destruct (Z.eqb_spec fh 0) as [|_]; [done|].
  cbn [mbind Result_bind].
  destruct (overall_bbox s) as [ob|]; cbn [bool_decide].
  - destruct (flt _ _) eqn:Hlt; cbn; eexists; (split; [reflexivity|]); cbn.
    + apply planned_narrow; [exact Hlt|]. eexists; reflexivity.
    + apply planned_short; [exact Hlt|]. eexists; reflexivity.
  - destruct (flt _ _) eqn:Hlt; cbn; eexists; (split; [reflexivity|]); cbn.
    + apply planned_narrow; [exact Hlt|]. reflexivity.
    + apply planned_short; [exact Hlt|]. reflexivity.
Qed.

Lemma target_ratio_pos (label : string) : (0 < target_ratio_of (F:=Qc) label)%Q.
Proof.
  unfold target_ratio_of.
  repeat match goal with |- context [String.eqb ?a ?b] => destruct (String.eqb a b) end;
    reflexivity.
Qed.

Lemma planned_in_frame (fw fh : Z) (tr : Qc) (salient : bool) (x y w h : Z) :
  0 < fh → (0 < tr)%Q → planned fw fh tr salient x y w h → in_frame fw fh x y w h.
Proof.
  intros Hfh Htr Hplan. unfold in_frame.
  destruct Hplan as [x Hlt Hx | y Hge Hy].
  - apply Qcltb_lt in Hlt. unfold current_ratio in Hlt. revert Hlt. to_Q. intros Hlt.
    assert (Hw : Qctrunc (Qc_of_Z fh * tr) <= fw).
    { unfold Qctrunc. to_Q. now apply narrowed_width_fits. }
    destruct salient.
    + destruct Hx as [v ->]. unfold clamp. lia.
    + subst x. generalize Hw. generalize (Qctrunc (Qc_of_Z fh * tr)). intros w Hw'.
      Z.div_mod_to_equations. lia.
  - apply Qcltb_ge in Hge. unfold current_ratio in Hge. revert Hge. to_Q. intros Hge.
    assert (Hh : Qctrunc (Qc_of_Z fw / tr) <= fh).
    { unfold Qctrunc. to_Q. now apply shortened_height_fits. }
    destruct salient.
    + destruct Hy as [v ->]. unfold clamp. lia.
    + subst y. generalize Hh. generalize (Qctrunc (Qc_of_Z fw / tr)). intros h Hh'.
      Z.div_mod_to_equations. lia.
Qed.

Lemma planner_in_frame (fw fh : Z) (s : salient_regions Qc) (label : string) :
  0 < fh →
  ∃ c, calculate_autoflip_crop fw fh s label = Ok c ∧ crop_in_frame fw fh c.
Proof.
  intros Hfh. destruct (planner_spec fw fh s label) as (c & Hc & Hplan); [lia|].
  exists c. split; [assumption|].
  eapply planned_in_frame; [assumption | apply target_ratio_pos | exact Hplan].
Qed.

(** ** The smoother over exact rationals *)

Lemma interpolated_crop_Qc (a b : frame_analysis Qc) (fps : Qc) (k : Z) :
  interpolated_crop a b fps k =
    if Qcis_zero fps then Raise ZeroDivisionError
    else
      let t := slot_factor a b k in
      Ok (mkSmoothed (frame_idx a + k) (Qc_of_Z (frame_idx a + k) / fps)%Qc
            (lerp_trunc (crop_x (crop_of a)) (crop_x (crop_of b)) t)
            (lerp_trunc (crop_y (crop_of a)) (crop_y (crop_of b)) t)
            (lerp_trunc (crop_width (crop_of a)) (crop_width (crop_of b)) t)
            (lerp_trunc (crop_height (crop_of a)) (crop_height (crop_of b)) t)
            (crop_confidence (crop_of a)
             + (crop_confidence (crop_of b) - crop_confidence (crop_of a)) * t)%Qc
            interpolated).
Proof.
  unfold interpolated_crop, truediv. cbn [fis_zero Qc_PyFloat].
  destruct (Qcis_zero fps); reflexivity.
Qed.

Lemma Qcis_zero_false (x : Qc) : x ≠ Q2Qc 0 → Qcis_zero x = false.
Proof.
  intros Hx. destruct (Qcis_zero x) eqn:Hz; [|reflexivity].
  now apply Qcis_zero_spec in Hz.
Qed.

Lemma slot_factor_unit (a b : frame_analysis Qc) (k : Z) :
  0 <= k < frame_idx b - frame_idx a →
  (0 <= slot_factor a b k)%Q ∧ (slot_factor a b k <= 1)%Q.
Proof.
  intros Hk. unfold slot_factor.
  destruct (Z.ltb_spec 0 (frame_idx b - frame_idx a)); [|lia].
  to_Q. now apply slot_fraction.
Qed.

Lemma lerp_trunc_in_frame (fw fh : Z) (ca cb : crop_info Qc) (t : Qc) :
  (0 <= t)%Q → (t <= 1)%Q →
  crop_in_frame fw fh ca → crop_in_frame fw fh cb →
  in_frame fw fh
    (lerp_trunc (crop_x ca) (crop_x cb) t) (lerp_trunc (crop_y ca) (crop_y cb) t)
    (lerp_trunc (crop_width ca) (crop_width cb) t)
    (lerp_trunc (crop_height ca) (crop_height cb) t).
Proof.
  intros Ht0 Ht1 (Hxa & Hya & Hwa & Hha) (Hxb & Hyb & Hwb & Hhb).
  unfold in_frame, lerp_trunc, Qctrunc. to_Q.
  destruct (lerp_pair_fits (crop_x ca) (crop_x cb) (crop_width ca) (crop_width cb) fw t)
    as [Hx Hw]; try assumption.
  destruct (lerp_pair_fits (crop_y ca) (crop_y cb) (crop_height ca) (crop_height cb) fh t)
    as [Hy Hh]; try assumption.
  auto.
Qed.

Lemma smoother_in_frame (fw fh : Z) (l : list (frame_analysis Qc))
    (total : Z) (fps : Qc) (out : list (smoothed_crop Qc)) :
  Forall (λ a, crop_in_frame fw fh (crop_of a)) l →
  smooth_crop_transitions l total fps = Ok out →
  Forall (smoothed_in_frame fw fh) out.
Proof.
  intros Hall. destruct l as [|a l].
  - intros [= <-]. constructor.
  - rewrite smooth_crop_transitions_Ok. intros (segments & Hseg & ->).
    apply Forall_app. split.
    + revert Hseg.
      apply (interpolate_keyframes_Forall _
               (λ a, crop_in_frame fw fh (crop_of a))); [|assumption].
      intros ka kb k c Hka Hkb Hk. rewrite interpolated_crop_Qc.
      destruct (Qcis_zero fps); [discriminate|]. intros [= <-].
      destruct (slot_factor_unit ka kb k Hk) as [Ht0 Ht1].
      now apply lerp_trunc_in_frame.
    + constructor; [|constructor].
      assert (Hlast : crop_in_frame fw fh (crop_of (List.last l a))).
      { apply (proj1 (Forall_forall _ _) Hall). apply last_elem_of. }
      exact Hlast.
Qed.

Lemma smoother_total (l : list (frame_analysis Qc)) (total : Z) (fps : Qc) :
  fps ≠ Q2Qc 0 → ∃ out, smooth_crop_transitions l total fps = Ok out.
Proof.
  intros Hfps. destruct l as [|a l]; [now exists []|].
  destruct (interpolate_keyframes_total fps (a :: l)) as [segments Hseg].
  { intros ka kb k. rewrite interpolated_crop_Qc, Qcis_zero_false by assumption.
    eexists. reflexivity. }
  eexists. apply smooth_crop_transitions_Ok. eauto.
Qed.



(** ** The portrait scenario *)

Lemma Qc_of_Z_0 : Qc_of_Z 0 = 0%Qc.
Proof. now apply Qc_is_canon. Qed.

Lemma Qc_of_Z_1 : Qc_of_Z 1 = 1%Qc.
Proof. now apply Qc_is_canon. Qed.

(** C2, as the code has it.  On a 1920x1080 frame whose only region is
    a face with normalized box (0.4, 0.4, 0.2, 0.2), whatever its
    confidence and pixel box, the planner called with "9:16" returns
    x = 656, y = 0, width = 607, height = 1080 and the method
    autoflip_salient: the width is [int(1080 * 0.5625) = int(607.5)],
    a truncation, and x is [int(960 - 303.5)]. *)
Theorem portrait_scenario (pb : PixelBox) (c : Qc) :
  (s ← aggregate_regions 1920 1080 [mkRegion pb c face_box] [] [];
   calculate_autoflip_crop 1920 1080 s "9:16")
  = Ok (mkCrop 656 0 607 1080 c autoflip_salient
          (Some (mkGuide (Q2Qc (1 # 2)) (Q2Qc (1 # 2)) face_box))).
Proof.
  unfold aggregate_regions.
  cbn [app map length fold_left total_confidence region_normalized_bbox
       region_confidence].
  cbn -[Qcplus Qcdiv Qcminus Qcmult].
  assert (E1 : (Q2Qc (2 # 5)
                + (Q2Qc (2 # 5) + Q2Qc (1 # 5) - Q2Qc (2 # 5)) / Qc_of_Z 2)%Qc
               = Q2Qc (1 # 2)) by now apply Qc_is_canon.
  assert (E2 : (Q2Qc (2 # 5) + Q2Qc (1 # 5) - Q2Qc (2 # 5))%Qc = Q2Qc (1 # 5))
    by now apply Qc_is_canon.
  assert (E3 : ((Qc_of_Z 0 + c) / Qc_of_Z (1 `max` Z.of_nat 1))%Qc = c).
  { change (1 `max` Z.of_nat 1) with 1.
    rewrite Qc_of_Z_0, Qc_of_Z_1, Qcplus_0_l. apply (right_id 1%Qc Qcdiv). }
  rewrite E1, E2, E3. vm_compute. reflexivity.
Qed.

(** The same scenario evaluated in binary64, where the union box is
    (0.4, 0.4, 0.20000000000000007, 0.20000000000000007) and its centre
    is 0.5. *)
Example portrait_scenario_binary64 :
  crop_summary <$>
    (s ← aggregate_regions 1920 1080 [face64] [] [];
     calculate_autoflip_crop 1920 1080 s "9:16")
  = Ok (656, 0, 607, 1080, autoflip_salient).
Proof. vm_compute. reflexivity. Qed.

(** The width the planner returns in the scenario is 607, over exact
    rationals and in binary64; 608 is [round(607.5)]. *)
Lemma portrait_scenario_counterexample :
  crop_width <$>
    (s ← aggregate_regions 1920 1080 [face (Q2Qc (9 # 10))] [] [];
     calculate_autoflip_crop 1920 1080 s "9:16") = Ok 607 ∧
  crop_width <$>
    (s ← aggregate_regions 1920 1080 [face64] [] [];
     calculate_autoflip_crop 1920 1080 s "9:16") = Ok 607.
Proof. split; vm_compute; reflexivity. Qed.

(** ** The aspect ratio of the crop *)

Lemma ratio_error_bound (W Hh T M m : Q) :
  (0 < m)%Q → (m <= Hh)%Q → (- M < W - Hh * T)%Q → (W - Hh * T < M)%Q →
  (Qabs (W / Hh - T) < M / m)%Q.
Proof.
  intros Hm HmH Hlo Hhi.
  assert (HH : (0 < Hh)%Q) by lra.
  assert (HE : (W / Hh * Hh == W)%Q) by now apply Qdiv_mult_cancel.
  set (E := (W / Hh)%Q) in *. clearbody E.
  assert (Hup : (E - T < M / m)%Q).
  { apply Qlt_shift_div_l; [assumption|]. destruct (Qlt_le_dec E T); nra. }
  assert (Hdown : (T - E < M / m)%Q).
  { apply Qlt_shift_div_l; [assumption|]. destruct (Qlt_le_dec E T); nra. }
  apply Qabs_Qlt_condition. set (B := (M / m)%Q) in *. clearbody B. split; lra.
Qed.

Lemma planned_ratio (fw fh : Z) (tr : Qc) (salient : bool) (x y w h : Z) :
  0 < fh → (0 < tr)%Q → planned fw fh tr salient x y w h →
  0 < w → 0 < h →
  (Qabs (inject_Z w / inject_Z h - tr) < Qmax 1 tr / inject_Z (Z.min w h))%Q.
Proof.
  intros Hfh Htr Hplan Hw Hh.
  assert (Hmin : (0 < inject_Z (Z.min w h))%Q) by (apply inject_Z_pos; lia).
  assert (HminH : (inject_Z (Z.min w h) <= inject_Z h)%Q) by (rewrite <- Zle_Qle; lia).
  pose proof (Q.le_max_l 1 tr) as HM1. pose proof (Q.le_max_r 1 tr) as HMt.
  apply ratio_error_bound; try assumption; clear Hmin HminH;
    generalize dependent (Qmax 1 tr); intros M HM1 HMt;
    destruct Hplan as [x _ _ | y _ _]; revert Hw Hh; unfold Qctrunc; to_Q.
  - intros _ _. pose proof (Qtrunc_lt_succ (inject_Z fh * tr)) as Hs.
    set (X := (inject_Z fh * tr)%Q) in *. clearbody X. lra.
  - intros Hw Hh. pose proof (Qtrunc_le_nonneg (inject_Z fw / tr)) as Hl.
    assert (HY : (inject_Z fw / tr * tr == inject_Z fw)%Q) by now apply Qdiv_mult_cancel.
    assert (Hpos : (0 <= inject_Z fw / tr)%Q).
    { apply Qle_shift_div_l; [assumption|]. rewrite Qmult_0_l.
      rewrite <- (Zle_Qle 0). lia. }
    specialize (Hl Hpos). set (Y := (inject_Z fw / tr)%Q) in *. clearbody Y. nra.
  - intros _ _.
    assert (Hpos : (0 <= inject_Z fh * tr)%Q).
    { apply Qmult_le_0_compat; [rewrite <- (Zle_Qle 0); lia | now apply Qlt_le_weak]. }
    pose proof (Qtrunc_le_nonneg _ Hpos) as Hl.
    set (X := (inject_Z fh * tr)%Q) in *. clearbody X. lra.
  - intros _ Hh. pose proof (Qtrunc_lt_succ (inject_Z fw / tr)) as Hs.
    assert (HY : (inject_Z fw / tr * tr == inject_Z fw)%Q) by now apply Qdiv_mult_cancel.
    set (Y := (inject_Z fw / tr)%Q) in *. clearbody Y. nra.
Qed.




(** The same frame and label in binary64. *)
Example widescreen_binary64 :
  crop_summary <$> calculate_autoflip_crop 1918 1080 no_regions64 "16:9"
  = Ok (0, 1, 1918, 1078, center_crop_fallback).
Proof. vm_compute. reflexivity. Qed.

(** ** No detected region *)

Lemma one_tenth : (Qc_of_Z 1 / Qc_of_Z 10)%Qc = Q2Qc (1 # 10).
Proof. now apply Qc_is_canon. Qed.

(** C5. When [overall_bbox] is absent, a crop the planner returns has
    the method center_crop_fallback and the confidence 0.1 and is centered
    in the frame: [x = (frame_width - width) // 2] and
    [y = (frame_height - height) // 2].  The planner does return one
    whenever the frame height is not zero.  On a 100x100 frame with the
    label "1:1" it returns x = 0, y = 0, width = 100, height = 100. *)
Theorem no_regions_center_fallback (fw fh : Z) (s : salient_regions Qc) (label : string) :
  overall_bbox s = None →
  (∀ c, calculate_autoflip_crop fw fh s label = Ok c →
        crop_method c = center_crop_fallback ∧
        crop_confidence c = Q2Qc (1 # 10) ∧
        crop_x c = (fw - crop_width c) `div` 2 ∧
        crop_y c = (fh - crop_height c) `div` 2) ∧
  (fh ≠ 0 → ∃ c, calculate_autoflip_crop fw fh s label = Ok c) ∧
  calculate_autoflip_crop 100 100 s "1:1"
    = Ok (mkCrop 0 0 100 100 (Q2Qc (1 # 10)) center_crop_fallback None).
Proof.
  intros Hnone. split; [|split].
  - intros c. unfold calculate_autoflip_crop. rewrite Hnone.
    destruct (truediv _ _) as [cur|e]; cbn [mbind Result_bind]; [|discriminate].
    destruct (flt _ _); cbn; intros [= <-]; cbn; rewrite one_tenth, Z.sub_diag;
      repeat split; reflexivity.
  - intros Hfh. destruct (planner_spec fw fh s label Hfh) as (c & Hc & _). eauto.
  - unfold calculate_autoflip_crop. rewrite Hnone, <- one_tenth.
    vm_compute. reflexivity.
Qed.

Lemma no_regions_center_fallback_witness :
  overall_bbox no_regions = None ∧
  (∃ c, calculate_autoflip_crop 1920 1080 no_regions "9:16" = Ok c) ∧
  calculate_autoflip_crop 100 100 no_regions "1:1"
    = Ok (mkCrop 0 0 100 100 (Q2Qc (1 # 10)) center_crop_fallback None).
Proof.
  split; [reflexivity|].
  destruct (no_regions_center_fallback 1920 1080 no_regions "9:16" eq_refl)
    as (_ & Htotal & Hscenario).
  split; [apply Htotal; discriminate | exact Hscenario].
Defined.

(** The 100x100 scenario in binary64, with the double 0.1. *)
Example square_scenario_binary64 :
  calculate_autoflip_crop 100 100 no_regions64 "1:1"
  = Ok (mkCrop 0 0 100 100 (tenths 1) center_crop_fallback None).
Proof. vm_compute. reflexivity. Qed.

(** ** Unrecognised labels *)

Lemma unknown_label_ratio {F} `{PyFloat F} (label : string) :
  label ∉ valid_labels →
  target_ratio_of (F:=F) label = target_ratio_of "9:16".
Proof.
  intros Hout. unfold target_ratio_of.
  destruct (String.eqb_spec label "9:16") as [->|_]; [reflexivity|].
  destruct (String.eqb_spec label "16:9") as [->|_].
  { exfalso. apply Hout. unfold valid_labels. set_solver. }
  destruct (String.eqb_spec label "1:1") as [->|_].
  { exfalso. apply Hout. unfold valid_labels. set_solver. }
  destruct (String.eqb_spec label "4:3") as [->|_].
  { exfalso. apply Hout. unfold valid_labels. set_solver. }
  reflexivity.
Qed.



(** ** Keyframes with the same index *)

(** C3, as the code has it.  Given exactly two analyses with equal frame
    indices the smoother raises nothing, whatever [fps] (zero included)
    and under either arithmetic, and returns exactly one crop: the one of
    the second analysis, with its frame index, timestamp and method. *)
Theorem duplicate_index_keeps_last (F : Type) (PF : PyFloat F)
    (a b : frame_analysis F) (total : Z) (fps : F) :
  frame_idx a = frame_idx b →
  smooth_crop_transitions [a; b] total fps = Ok [last_frame_crop b].
Proof. apply smooth_duplicate_index. Qed.

Lemma duplicate_index_keeps_last_witness :
  smooth_crop_transitions
    [mkAnalysis 5 (Q2Qc (1 # 6)) no_regions fallback_crop;
     mkAnalysis 5 (Q2Qc (1 # 6)) no_regions salient_crop] 10 (Qc_of_Z 0)
  = Ok [mkSmoothed 5 (Q2Qc (1 # 6)) 100 0 607 1080 (Q2Qc (9 # 10)) autoflip_salient].
Proof.
  exact (duplicate_index_keeps_last Qc _
           (mkAnalysis 5 (Q2Qc (1 # 6)) no_regions fallback_crop)
           (mkAnalysis 5 (Q2Qc (1 # 6)) no_regions salient_crop)
           10 (Qc_of_Z 0) eq_refl).
Defined.

(** Two analyses at frame 5: the first has x = 656 and the fallback
    method, the second x = 100 and the salient method; the single crop
    returned has x = 100 and the salient method. *)
Lemma duplicate_index_counterexample :
  smooth_crop_transitions
    [mkAnalysis 5 (Q2Qc (1 # 6)) no_regions fallback_crop;
     mkAnalysis 5 (Q2Qc (1 # 6)) no_regions salient_crop] 10 (Qc_of_Z 30)
  = Ok [mkSmoothed 5 (Q2Qc (1 # 6)) 100 0 607 1080 (Q2Qc (9 # 10)) autoflip_salient] ∧
  crop_x fallback_crop = 656 ∧
  crop_method fallback_crop = center_crop_fallback.
Proof. repeat split. Qed.

(** ** Length of the smoothed sequence *)

(** C6. The smoother returns the empty list on no analysis and the
    single crop, unchanged, on one analysis.  On a non-empty list with
    non-decreasing frame indices, a list it returns has
    [last index - first index + 1] elements; it does return one whenever
    [fps] is not zero (on [fps = 0] an interpolated slot raises
    [ZeroDivisionError]). *)
Theorem smoothed_length (total : Z) (fps : Qc) :
  smooth_crop_transitions [] total fps = Ok [] ∧
  (∀ a : frame_analysis Qc,
     smooth_crop_transitions [a] total fps
     = Ok [mkSmoothed (frame_idx a) (timestamp a)
             (crop_x (crop_of a)) (crop_y (crop_of a))
             (crop_width (crop_of a)) (crop_height (crop_of a))
             (crop_confidence (crop_of a)) (crop_method (crop_of a))]) ∧
  (∀ (a : frame_analysis Qc) (l : list (frame_analysis Qc)),
     nondecreasing (a :: l) →
     (∀ out, smooth_crop_transitions (a :: l) total fps = Ok out →
             Z.of_nat (length out) = frame_idx (List.last l a) - frame_idx a + 1) ∧
     (fps ≠ Q2Qc 0 → ∃ out, smooth_crop_transitions (a :: l) total fps = Ok out)).
Proof.
  split; [reflexivity|]. split; [reflexivity|].
  intros a l Hsorted. split.
  - intros out. now apply smooth_length.
  - apply smoother_total.
Qed.

Lemma smoothed_length_witness :
  nondecreasing three_keyframes ∧
  ∃ out, smooth_crop_transitions three_keyframes 6 (Qc_of_Z 30) = Ok out ∧
         Z.of_nat (length out) = 5 - 0 + 1.
Proof.
  assert (Hsorted : nondecreasing three_keyframes).
  { unfold three_keyframes. repeat constructor; simpl; lia. }
  split; [exact Hsorted|].
  destruct (smoothed_length 6 (Qc_of_Z 30)) as (_ & _ & Hlist).
  destruct (Hlist _ _ Hsorted) as [Hlen Htotal].
  destruct Htotal as [out Hout]; [discriminate|].
  exists out. split; [exact Hout | exact (Hlen out Hout)].
Defined.

(** ** Endpoints of the interpolation *)

Lemma slot_factor_0 (a b : frame_analysis Qc) :
  0 < frame_idx b - frame_idx a → slot_factor a b 0 = 0%Qc.
Proof.
  intros Hdiff. unfold slot_factor.
  destruct (Z.ltb_spec 0 (frame_idx b - frame_idx a)); [|lia].
  rewrite Qc_of_Z_0. unfold Qcdiv. apply Qcmult_0_l.
Qed.

Lemma lerp_trunc_0 (u v : Z) : lerp_trunc u v 0%Qc = u.
Proof.
  unfold lerp_trunc. rewrite Qcmult_0_r, Qcplus_0_r.
  unfold Qctrunc. apply Qtrunc_inject_Z.
Qed.



(** ** The frame count argument *)

(** C10. The smoother's result, exception included, is the same for
    any two values of [total_frames], for every list, every [fps] and
    under either arithmetic.  Every crop it returns is for a frame no later
    than some sampled frame, and, when the frame indices are
    non-decreasing, no later than the last sampled frame. *)
Theorem total_frames_is_ignored (F : Type) (PF : PyFloat F)
    (l : list (frame_analysis F)) (fps : F) (total total' : Z) :
  smooth_crop_transitions l total fps = smooth_crop_transitions l total' fps ∧
  (∀ out, smooth_crop_transitions l total fps = Ok out →
          Forall (λ c, ∃ a, a ∈ l ∧ sc_frame_idx c <= frame_idx a) out) ∧
  (∀ a l' out, l = a :: l' → nondecreasing l →
               smooth_crop_transitions l total fps = Ok out →
               Forall (λ c, sc_frame_idx c <= frame_idx (List.last l' a)) out).
Proof.
  split; [reflexivity|]. split.
  - intros out. apply smooth_frame_idx_bounded.
  - intros a l' out -> Hsorted Hout.
    apply smooth_frame_idx_bounded in Hout.
    eapply Forall_impl; [exact Hout|]. cbn. intros c (b & Hb & Hle).
    etrans; [exact Hle|]. now apply nondecreasing_le_last.
Qed.

Lemma total_frames_is_ignored_witness :
  smooth_crop_transitions three_keyframes 6 (Qc_of_Z 30)
  = smooth_crop_transitions three_keyframes 600 (Qc_of_Z 30) ∧
  ∃ out, smooth_crop_transitions three_keyframes 600 (Qc_of_Z 30) = Ok out ∧
         Forall (λ c, sc_frame_idx c <= 5) out.
Proof.
  destruct (total_frames_is_ignored Qc _ three_keyframes (Qc_of_Z 30) 600 6)
    as (Hsame & _ & Hlast).
  split; [symmetry; exact Hsame|].
  destruct (smoother_total three_keyframes 600 (Qc_of_Z 30)) as [out Hout];
    [discriminate|].
  exists out. split; [exact Hout|].
  apply (Hlast _ _ out eq_refl); [|exact Hout].
  unfold three_keyframes. repeat constructor; simpl; lia.
Defined.

(** ** Exit status of the command line *)

Section CommandLine.
Context {F : Type} `{PyFloat F} {Frame : Type}.
Variable frame_shape : Frame → Z * Z.
Variable detect_regions :
  Frame → list (region F) * list (region F) * list (region F).

(** A missing input: one line on stdout, status 1. *)
Lemma missing_input (args : arguments) (w : world F Frame) :
  files w !! input_video args = None →
  run Frame frame_shape detect_regions args w
  = (mkWorld (files w) (stdout w ++ [MsgInputNotFound (input_video args)])
       (stderr w), 1).
Proof.
  intros Hnone. unfold run, main, path_exists, mbind, IO_bind.
  rewrite Hnone. reflexivity.
Qed.

(** An input that exists and does not open as a video. *)
Lemma unopenable_input (args : arguments) (w : world F Frame) (f : file F Frame) :
  files w !! input_video args = Some f → (∀ v, f ≠ VideoFile v) →
  run Frame frame_shape detect_regions args w
  = (mkWorld (files w)
       ((stdout w ++ [MsgStarting]) ++ [MsgError "Could not open video file"])
       (stderr w), 1).
Proof.
  intros Hsome Hnot.
  unfold run, main, path_exists, process_video_autoflip, VideoCapture, mbind, IO_bind.
  rewrite Hsome. cbn. rewrite Hsome.
  destruct f as [v| |r]; [now destruct (Hnot v)| |]; reflexivity.
Qed.

(** A sampled analysis is kept only after [frame_idx / fps] succeeded:
    the program reaches the smoother with a non-empty list only when
    [fps] is not zero. *)
Lemma analyze_frames_fps (fw fh : Z) (fps : F) (label : string) (interval : Z)
    (frames : list Frame) (idx : Z) (acc acc' : list (frame_analysis F))
    (w w' : world F Frame) :
  analyze_frames Frame frame_shape detect_regions fw fh fps label interval
    frames idx acc w = (w', Done acc') →
  acc' = acc ∨ fis_zero fps = false.
Proof.
  revert idx acc w. induction frames as [|frame rest IH]; intros idx acc w.
  - intros [= _ <-]. now left.
  - cbn [analyze_frames]. unfold mbind at 1. unfold IO_bind at 1.
    destruct (idx `mod` interval =? 0).
    + unfold mbind, IO_bind, lift, truediv.
      destruct (detect_salient_regions _ _ _ frame) as [s|e]; [|discriminate].
      destruct (calculate_autoflip_crop fw fh s label) as [c|e]; [|discriminate].
      destruct (fis_zero fps); [discriminate|]. now right.
    + cbn. apply IH.
Qed.

(** [main] run to its end: status 0, and the report is in the output
    file. *)
Lemma main_Done (args : arguments) (w w' : world F Frame) :
  main Frame frame_shape detect_regions args w = (w', Done tt) →
  run Frame frame_shape detect_regions args w = (w', 0) ∧
  ∃ r, files w' !! output_json args = Some (JsonFile r).
Proof.
  intros Hmain. unfold run. rewrite Hmain. split; [reflexivity|].
  revert Hmain. unfold main, path_exists, mbind, IO_bind.
  destruct (bool_decide _); cbn; [|discriminate].
  destruct (process_video_autoflip _ _ _ _ _ _ _ _) as [w1 [[text|r]|ab]]; cbn;
    try discriminate.
  intros [= <-]. exists r. cbn. apply lookup_insert_eq.
Qed.

End CommandLine.

Lemma aggregate_regions_total (width height : Z) (fs ps hs : list (region Qc)) :
  ∃ s, aggregate_regions width height fs ps hs = Ok s.
Proof.
  unfold aggregate_regions. destruct (map _ _); cbn; eexists; reflexivity.
Qed.

Section Success.
Context {Frame : Type}.
Variable frame_shape : Frame → Z * Z.
Variable detect_regions :
  Frame → list (region Qc) * list (region Qc) * list (region Qc).

Lemma detect_salient_regions_total (frame : Frame) :
  ∃ s, detect_salient_regions Frame frame_shape detect_regions frame = Ok s.
Proof.
  unfold detect_salient_regions. destruct (frame_shape frame) as [h w].
  destruct (detect_regions frame) as [[fs ps] hs]. apply aggregate_regions_total.
Qed.

(** The reading loop ends, and touches neither the files nor stderr. *)
Lemma analyze_frames_Done (fw fh : Z) (fps : Qc) (label : string) (interval : Z)
    (frames : list Frame) (idx : Z) (acc : list (frame_analysis Qc))
    (w : world Qc Frame) :
  fh ≠ 0 → fps ≠ Q2Qc 0 →
  ∃ w' acc',
    analyze_frames Frame frame_shape detect_regions fw fh fps label interval
      frames idx acc w = (w', Done acc') ∧
    files w' = files w ∧ stderr w' = stderr w.
Proof.
  intros Hfh Hfps. revert idx acc w.
  induction frames as [|frame rest IH]; intros idx acc w.
  - exists w, acc. repeat split.
  - cbn [analyze_frames]. unfold mbind at 1. unfold IO_bind at 1.
    destruct (idx `mod` interval =? 0).
    + destruct (detect_salient_regions_total frame) as [s Hs].
      destruct (planner_spec fw fh s label Hfh) as (c & Hc & _).
      unfold mbind, IO_bind, lift, truediv. rewrite Hs, Hc.
      cbn [fis_zero Qc_PyFloat]. rewrite (Qcis_zero_false fps Hfps). cbn.
      match goal with
      | |- context [analyze_frames _ _ _ _ _ _ _ _ _ ?i ?a ?w0] =>
          destruct (IH i a w0) as (w' & acc' & Hrun & Hfiles & Herr)
      end.
      exists w', acc'. rewrite Hrun. repeat split; assumption.
    + cbn. destruct (IH (idx + 1) acc w) as (w' & acc' & Hrun & Hfiles & Herr).
      exists w', acc'. rewrite Hrun. repeat split; assumption.
Qed.

Lemma process_video_succeeds (input output label : string) (rate : Z)
    (w : world Qc Frame) (v : video Qc Frame) :
  files w !! input = Some (VideoFile v) →
  rate ≠ 0 → video_fps v ≠ Q2Qc 0 → video_height v ≠ 0 →
  ∃ w' r,
    process_video_autoflip Frame frame_shape detect_regions input output label rate w
    = (w', Done (ProcessDone r)).
Proof.
  intros Hfile Hrate Hfps Hfh.
  unfold process_video_autoflip, VideoCapture, floordiv, mbind, IO_bind.
  rewrite Hfile. destruct (Z.eqb_spec rate 0) as [|_]; [done|].
  cbn [lift print].
  match goal with
  | |- context [analyze_frames _ _ _ ?a ?b ?c ?d ?e ?f ?i ?acc ?w0] =>
      destruct (analyze_frames_Done a b c d e f i acc w0 Hfh Hfps)
        as (w1 & analyses & Hrun & _ & _)
  end.
  rewrite Hrun.
  destruct (smoother_total analyses (video_frame_count v) (video_fps v) Hfps)
    as [out Hout].
  rewrite Hout. eexists _, _. reflexivity.
Qed.

Lemma main_succeeds (args : arguments) (w : world Qc Frame) (v : video Qc Frame) :
  files w !! input_video args = Some (VideoFile v) →
  arg_sample_rate args ≠ 0 → video_fps v ≠ Q2Qc 0 → video_height v ≠ 0 →
  ∃ w', main Frame frame_shape detect_regions args w = (w', Done tt).
Proof.
  intros Hfile Hrate Hfps Hfh.
  unfold main, path_exists, mbind, IO_bind.
  rewrite Hfile, bool_decide_eq_true_2 by eauto. cbn [negb print].
  match goal with
  | |- context [process_video_autoflip _ _ _ ?i ?o ?l ?r ?w0] =>
      destruct (process_video_succeeds i o l r w0 v) as (w1 & r1 & Hrun);
        try assumption
  end.
  rewrite Hrun. eexists. reflexivity.
Qed.

End Success.





(** * Further properties of the code *)

(** ** The planner *)

(** What a call of the planner that returned has computed, under either
    arithmetic. *)
Lemma planner_Ok_inv {F} `{PyFloat F} (fw fh : Z) (s : salient_regions F)
    (label : string) (c : crop_info F) :
  calculate_autoflip_crop fw fh s label = Ok c →
  ∃ cur, truediv (float_of_int fw) (float_of_int fh) = Ok cur ∧
    ((flt (target_ratio_of label) cur = true ∧
      int_of_float (fmul (float_of_int fh) (target_ratio_of label))
      = Ok (crop_width c) ∧
      crop_height c = fh ∧ crop_y c = 0) ∨
     (flt (target_ratio_of label) cur = false ∧
      int_of_float (fdiv (float_of_int fw) (target_ratio_of label))
      = Ok (crop_height c) ∧
      crop_width c = fw ∧ crop_x c = 0)).
Proof.
  unfold calculate_autoflip_crop.
  destruct (truediv _ _) as [cur|e]; cbn [mbind Result_bind]; [|discriminate].
  intros Hc. exists cur. split; [reflexivity|].
  destruct (overall_bbox s) as [ob|]; destruct (flt _ cur);
    repeat match type of Hc with
           | context [int_of_float ?q ≫= _] =>
               destruct (int_of_float q) eqn:?; cbn [mbind Result_bind] in Hc;
               [|discriminate]
           end;
    cbn in Hc; injection Hc as <-; cbn; auto.
Qed.

(** X1. The crop is cut along one axis only: a crop the planner returns
    either spans the full frame height from y = 0, or spans the full
    frame width from x = 0. *)
Theorem planner_single_axis (F : Type) (PF : PyFloat F) (fw fh : Z)
    (s : salient_regions F) (label : string) (c : crop_info F) :
  calculate_autoflip_crop fw fh s label = Ok c →
  (crop_height c = fh ∧ crop_y c = 0) ∨ (crop_width c = fw ∧ crop_x c = 0).
Proof.
  intros Hc.
  apply planner_Ok_inv in Hc as (cur & _ & [(_ & _ & ? & ?) | (_ & _ & ? & ?)]); auto.
Qed.

Lemma planner_single_axis_witness :
  (crop_height portrait_fallback = 1080 ∧ crop_y portrait_fallback = 0) ∨
  (crop_width portrait_fallback = 1920 ∧ crop_x portrait_fallback = 0).
Proof.
  apply (planner_single_axis Qc _ 1920 1080 no_regions "9:16" portrait_fallback).
  vm_compute. reflexivity.
Defined.

Lemma planner_size_determined (F : Type) (PF : PyFloat F) (fw fh : Z)
    (s1 s2 : salient_regions F) (label : string) (c1 c2 : crop_info F) :
  calculate_autoflip_crop fw fh s1 label = Ok c1 →
  calculate_autoflip_crop fw fh s2 label = Ok c2 →
  crop_width c1 = crop_width c2 ∧ crop_height c1 = crop_height c2.
Proof.
  intros H1 H2.
  apply planner_Ok_inv in H1 as (cur1 & Hcur1 & Hb1).
  apply planner_Ok_inv in H2 as (cur2 & Hcur2 & Hb2).
  rewrite Hcur1 in Hcur2. injection Hcur2 as <-.
  destruct Hb1 as [(Hl1 & Hw1 & Hh1 & _) | (Hl1 & Hh1 & Hw1 & _)];
    destruct Hb2 as [(Hl2 & Hw2 & Hh2 & _) | (Hl2 & Hh2 & Hw2 & _)];
    try congruence.
  - rewrite Hw1 in Hw2. injection Hw2 as ->. split; congruence.
  - rewrite Hh1 in Hh2. injection Hh2 as ->. split; congruence.
Qed.

(** X2. The size of the crop depends on the frame and the label only:
    two calls on the same frame and label that return, whatever the two
    saliences, return crops of the same width and height. *)
Theorem planner_size_ignores_salience (F : Type) (PF : PyFloat F) (fw fh : Z)
    (s1 s2 : salient_regions F) (label : string) (c1 c2 : crop_info F) :
  calculate_autoflip_crop fw fh s1 label = Ok c1 →
  calculate_autoflip_crop fw fh s2 label = Ok c2 →
  crop_width c1 = crop_width c2 ∧ crop_height c1 = crop_height c2.
Proof. apply planner_size_determined. Qed.

Lemma planner_size_ignores_salience_witness :
  crop_width portrait_fallback = crop_width portrait_salient ∧
  crop_height portrait_fallback = crop_height portrait_salient.
Proof.
  apply (planner_size_ignores_salience Qc _ 1920 1080 no_regions face_salience "9:16");
    vm_compute; reflexivity.
Defined.

(** X3. A frame height of zero makes the planner raise
    [ZeroDivisionError], whatever the width, the salience and the label,
    over exact rationals and in binary64. *)
Theorem planner_zero_height (fw : Z) (label : string)
    (s : salient_regions Qc) (s64 : salient_regions float) :
  calculate_autoflip_crop fw 0 s label = Raise ZeroDivisionError ∧
  calculate_autoflip_crop fw 0 s64 label = Raise ZeroDivisionError.
Proof. split; reflexivity. Qed.

Lemma Qtrunc_nonpos (q : Q) : (q <= 0)%Q → Qtrunc q <= 0.
Proof. intros Hq. apply Qtrunc_le_Z. exact Hq. Qed.

(** A window of extent [w >= 2] placed at [int(C - w/2)], clamped to
    [0 .. bound - w], contains the point [C] of [0 .. bound]. *)
Lemma clamp_contains_centre (C : Q) (w bound : Z) :
  (0 <= C)%Q → (C <= inject_Z bound)%Q → 2 <= w → w <= bound →
  (inject_Z (clamp (Qtrunc (C - inject_Z w / 2)) (bound - w)) <= C)%Q ∧
  (C <= inject_Z (clamp (Qtrunc (C - inject_Z w / 2)) (bound - w) + w))%Q.
Proof.
  intros HC0 HCb Hw Hwb.
  unfold Qdiv. change (/ 2)%Q with (1 # 2)%Q.
  set (q := (C - inject_Z w * (1 # 2))%Q).
  pose proof (Qtrunc_lt_succ q) as Hsucc.
  pose proof (Qtrunc_le_nonneg q) as Hle.
  pose proof (Qtrunc_nonneg q) as Hnonneg.
  pose proof (Qtrunc_nonpos q) as Hnonpos.
  assert (Hw2 : (2 <= inject_Z w)%Q) by (rewrite <- (Zle_Qle 2); exact Hw).
  rewrite inject_Z_plus. unfold clamp.
  generalize dependent (Qtrunc q). intros v Hsucc Hle Hnonneg Hnonpos.
  destruct (Qlt_le_dec q 0) as [Hneg | Hpos].
  - assert (Hv : v <= 0) by (apply Hnonpos; now apply Qlt_le_weak).
    replace (0 `max` (v `min` (bound - w))) with 0 by lia.
    subst q. change (inject_Z 0) with 0%Q. split; lra.
  - specialize (Hle Hpos). specialize (Hnonneg Hpos).
    destruct (Z_le_gt_dec v (bound - w)) as [Hin | Hout].
    + replace (0 `max` (v `min` (bound - w))) with v by lia.
      subst q. split; lra.
    + replace (0 `max` (v `min` (bound - w))) with (bound - w) by lia.
      assert (Hlt : (inject_Z (bound + - w) < inject_Z v)%Q)
        by (rewrite <- Zlt_Qlt; lia).
      unfold Z.sub. rewrite inject_Z_plus, inject_Z_opp in *. subst q. split; lra.
Qed.

Lemma crop_offset_contains (cxq : Qc) (w bound : Z) :
  (0 <= cxq)%Q → (cxq <= 1)%Q → 0 < bound → 2 <= w → w <= bound →
  (inject_Z (clamp (Qctrunc (cxq * Qc_of_Z bound - half w)) (bound - w))
   <= cxq * inject_Z bound)%Q ∧
  (cxq * inject_Z bound
   <= inject_Z (clamp (Qctrunc (cxq * Qc_of_Z bound - half w)) (bound - w) + w))%Q.
Proof.
  intros H0 H1 Hb Hw Hwb.
  assert (Heq : Qctrunc (cxq * Qc_of_Z bound - half w)
                = Qtrunc (cxq * inject_Z bound - inject_Z w / 2)).
  { unfold half. cbn [fdiv float_of_int Qc_PyFloat]. unfold Qctrunc. to_Q.
    reflexivity. }
  rewrite Heq.
  assert (HB : (0 < inject_Z bound)%Q) by now apply inject_Z_pos.
  apply clamp_contains_centre; try assumption.
  - generalize dependent (this cxq). intros q ? ?. nra.
  - generalize dependent (this cxq). intros q ? ?. nra.
Qed.

Lemma unit_fraction_of_extent (cyq : Qc) (bound : Z) :
  (0 <= cyq)%Q → (cyq <= 1)%Q → 0 < bound →
  (inject_Z 0 <= cyq * inject_Z bound)%Q ∧
  (cyq * inject_Z bound <= inject_Z (0 + bound))%Q.
Proof.
  intros H0 H1 Hb.
  assert (HB : (0 < inject_Z bound)%Q) by now apply inject_Z_pos.
  change (inject_Z 0) with 0%Q. rewrite Z.add_0_l.
  generalize dependent (this cyq). intros q ? ?. split; nra.
Qed.




(** ** The smoother *)

Section Smoothing.
Context {F : Type} `{PyFloat F}.
Implicit Types (l : list (frame_analysis F)) (out : list (smoothed_crop F)).

(** The smoother on two or more keyframes: the first segment, then the
    smoother's output on the rest. *)
Lemma smooth_crop_transitions_cons (a b : frame_analysis F) l (total : Z) (fps : F) out :
  smooth_crop_transitions (a :: b :: l) total fps = Ok out ↔
  ∃ segment rest,
    interpolate_pair a b fps = Ok segment ∧
    smooth_crop_transitions (b :: l) total fps = Ok rest ∧
    out = segment ++ rest.
Proof.
  rewrite smooth_crop_transitions_Ok. split.
  - intros (segments & Hseg & ->).
    apply interpolate_keyframes_Ok in Hseg as (segment & others & Hpair & Hrest & ->).
    exists segment, (others ++ [last_frame_crop (List.last l b)]).
    split; [assumption|]. split.
    + apply smooth_crop_transitions_Ok. eauto.
    + rewrite last_cons_default. now rewrite app_assoc.
  - intros (segment & rest & Hpair & Hrest & ->).
    apply smooth_crop_transitions_Ok in Hrest as (others & Hothers & ->).
    exists (segment ++ others). split.
    + rewrite interpolate_keyframes_cons, Hpair. cbn [mbind Result_bind].
      rewrite Hothers. reflexivity.
    + rewrite last_cons_default. now rewrite app_assoc.
Qed.

Lemma interpolated_crop_Ok_inv (a b : frame_analysis F) (fps : F) (k : Z) c :
  interpolated_crop a b fps k = Ok c →
  sc_frame_idx c = frame_idx a + k ∧
  sc_method c = interpolated ∧
  truediv (float_of_int (frame_idx a + k)) fps = Ok (sc_timestamp c).
Proof.
  unfold interpolated_crop.
  destruct (truediv _ fps) as [ts|e]; cbn [mbind Result_bind]; [|discriminate].
  repeat match goal with
         | |- context [lerp_int ?u ?v ?t ≫= _] =>
             destruct (lerp_int u v t); cbn [mbind Result_bind]; [|discriminate]
         end.
  intros [= <-]. repeat split.
Qed.

Lemma interpolate_pair_lookup (a b : frame_analysis F) (fps : F) out (i : nat) c :
  interpolate_pair a b fps = Ok out → out !! i = Some c →
  interpolated_crop a b fps (Z.of_nat i) = Ok c ∧
  0 <= Z.of_nat i < frame_idx b - frame_idx a.
Proof.
  unfold interpolate_pair. rewrite mapM_Ok. intros Hall Hi.
  destruct (Forall2_lookup_r _ _ _ _ _ Hall Hi) as (k & Hk & Hkc).
  assert (Hlt : (i < Z.to_nat (frame_idx b - frame_idx a))%nat).
  { rewrite <- length_range. eapply lookup_lt_Some. exact Hk. }
  rewrite lookup_range in Hk by assumption. injection Hk as <-.
  split; [assumption | lia].
Qed.

Lemma smooth_lookup_frame_idx (a : frame_analysis F) l
    (total : Z) (fps : F) out :
  nondecreasing (a :: l) →
  smooth_crop_transitions (a :: l) total fps = Ok out →
  ∀ (i : nat) c, out !! i = Some c → sc_frame_idx c = frame_idx a + Z.of_nat i.
Proof.
  revert a out. induction l as [|b l IH]; intros a out Hsorted.
  - intros [= <-] [|i] c; [|discriminate]. intros [= <-]. cbn. lia.
  - rewrite smooth_crop_transitions_cons. intros (segment & rest & Hpair & Hrest & ->).
    apply Sorted_inv in Hsorted as [Hsorted Hhd]. apply HdRel_inv in Hhd.
    pose proof (interpolate_pair_length _ _ _ _ Hpair) as Hlen.
    intros i c Hi. destruct (decide (i < length segment)%nat) as [Hin | Hout].
    + rewrite lookup_app_l in Hi by assumption.
      destruct (interpolate_pair_lookup _ _ _ _ _ _ Hpair Hi) as [Hc _].
      now apply interpolated_crop_Ok_inv in Hc as [? _].
    + rewrite lookup_app_r in Hi by lia.
      rewrite (IH b rest Hsorted Hrest _ _ Hi). lia.
Qed.

(** X5. On keyframes whose frame indices never decrease, the list the
    smoother returns has one entry per frame in order: the entry at
    position [i] is for frame [first index + i], under either
    arithmetic. *)
Theorem smoothed_frames_consecutive (a : frame_analysis F) l
    (total : Z) (fps : F) out :
  nondecreasing (a :: l) →
  smooth_crop_transitions (a :: l) total fps = Ok out →
  ∀ (i : nat) c, out !! i = Some c → sc_frame_idx c = frame_idx a + Z.of_nat i.
Proof. apply smooth_lookup_frame_idx. Qed.

(** X6. In a list the smoother returns, the last entry is the last
    keyframe's crop with its own timestamp and method, and every entry
    before it has the method interpolated and the timestamp
    [frame index / fps]. *)
Theorem smoothed_tags (a : frame_analysis F) l (total : Z) (fps : F) out :
  smooth_crop_transitions (a :: l) total fps = Ok out →
  ∃ init,
    out = init ++ [last_frame_crop (List.last l a)] ∧
    Forall (λ c, sc_method c = interpolated ∧
                 truediv (float_of_int (sc_frame_idx c)) fps = Ok (sc_timestamp c)) init.
Proof.
  rewrite smooth_crop_transitions_Ok. intros (segments & Hseg & ->).
  exists segments. split; [reflexivity|].
  revert Hseg. apply (interpolate_keyframes_Forall _ (λ _, True)).
  - intros ka kb k c _ _ _ Hc. apply interpolated_crop_Ok_inv in Hc as (Hidx & Hm & Hts).
    rewrite Hidx. auto.
  - apply Forall_forall. auto.
Qed.

Lemma interpolate_pair_empty (a b : frame_analysis F) (fps : F) :
  frame_idx b <= frame_idx a → interpolate_pair a b fps = Ok [].
Proof.
  intros Hle. unfold interpolate_pair, range.
  replace (Z.to_nat (frame_idx b - frame_idx a)) with 0%nat by lia. reflexivity.
Qed.

Lemma interpolated_crop_zero_fps (a b : frame_analysis F) (fps : F) (k : Z) :
  fis_zero fps = true → interpolated_crop a b fps k = Raise ZeroDivisionError.
Proof. intros Hz. unfold interpolated_crop, truediv. rewrite Hz. reflexivity. Qed.

Lemma interpolate_pair_zero_fps (a b : frame_analysis F) (fps : F) :
  fis_zero fps = true → frame_idx a < frame_idx b →
  interpolate_pair a b fps = Raise ZeroDivisionError.
Proof.
  intros Hz Hlt. unfold interpolate_pair, range.
  destruct (Z.to_nat (frame_idx b - frame_idx a)) as [|n] eqn:Hn; [lia|].
  cbn [seq fmap list_fmap mapM]. rewrite interpolated_crop_zero_fps by assumption.
  reflexivity.
Qed.

(** X7. With [fps = 0] the smoother raises [ZeroDivisionError] exactly
    when two neighbouring keyframes have increasing frame indices (there
    is then a slot whose timestamp divides by [fps]); otherwise no slot
    is interpolated and it returns the last keyframe's crop alone. *)
Theorem smooth_zero_fps l (total : Z) (fps : F) :
  fis_zero fps = true →
  (has_gap l → smooth_crop_transitions l total fps = Raise ZeroDivisionError) ∧
  (¬ has_gap l → ∀ a l', l = a :: l' →
     smooth_crop_transitions l total fps = Ok [last_frame_crop (List.last l' a)]).
Proof.
  intros Hz. induction l as [|a l IH].
  - split.
    + intros (i & a & b & Ha & _). discriminate.
    + intros _ a l' [=].
  - destruct l as [|b l].
    + split.
      * intros ([|i] & x & y & Hx & Hy & _); discriminate.
      * intros _ a' l' [= <- <-]. reflexivity.
    + destruct IH as [IHgap IHflat].
      destruct (Z_lt_le_dec (frame_idx a) (frame_idx b)) as [Hlt | Hle].
      * split.
        -- intros _. unfold smooth_crop_transitions.
           rewrite interpolate_keyframes_cons, interpolate_pair_zero_fps by assumption.
           reflexivity.
        -- intros Hno. destruct Hno. exists 0%nat, a, b. auto.
      * assert (Hiff : has_gap (a :: b :: l) ↔ has_gap (b :: l)).
        { split.
          - intros ([|i] & x & y & Hx & Hy & Hxy).
            + injection Hx as <-. injection Hy as <-. lia.
            + exists i, x, y. auto.
          - intros (i & x & y & Hx & Hy & Hxy). exists (S i), x, y. auto. }
        assert (Hstep : smooth_crop_transitions (a :: b :: l) total fps
                        = smooth_crop_transitions (b :: l) total fps).
        { unfold smooth_crop_transitions.
          rewrite interpolate_keyframes_cons, interpolate_pair_empty by assumption.
          cbn [mbind Result_bind].
          change (last (a :: b :: l)) with (last (b :: l)).
          destruct (interpolate_keyframes fps (b :: l)); reflexivity. }
        rewrite Hstep, Hiff. split; [exact IHgap|].
        intros Hno a' l' [= <- <-]. rewrite last_cons_default.
        apply (IHflat Hno b l eq_refl).
Qed.
End Smoothing.

Lemma smoothed_frames_consecutive_witness :
  ∃ out, smooth_crop_transitions three_keyframes 6 (Qc_of_Z 30) = Ok out ∧
         ∀ (i : nat) c, out !! i = Some c → sc_frame_idx c = 0 + Z.of_nat i.
Proof.
  destruct (smoother_total three_keyframes 6 (Qc_of_Z 30)) as [out Hout];
    [discriminate|].
  exists out. split; [exact Hout|].
  unfold three_keyframes in Hout.
  refine (smoothed_frames_consecutive _ _ 6 (Qc_of_Z 30) out _ Hout).
  repeat constructor; simpl; lia.
Defined.

Lemma smoothed_tags_witness :
  ∃ out init,
    smooth_crop_transitions three_keyframes 6 (Qc_of_Z 30) = Ok out ∧
    out = init ++ [mkSmoothed 5 (Q2Qc (1 # 6)) 656 0 607 1080 (Q2Qc (1 # 10))
                     center_crop_fallback] ∧
    Forall (λ c, sc_method c = interpolated ∧
                 truediv (float_of_int (sc_frame_idx c)) (Qc_of_Z 30)
                 = Ok (sc_timestamp c)) init.
Proof.
  destruct (smoother_total three_keyframes 6 (Qc_of_Z 30)) as [out Hout];
    [discriminate|].
  unfold three_keyframes in Hout.
  destruct (smoothed_tags _ _ 6 (Qc_of_Z 30) out Hout) as (init & Heq & Hall).
  exists out, init. split; [exact Hout|]. split; [exact Heq | exact Hall].
Defined.

Lemma smooth_zero_fps_witness :
  smooth_crop_transitions three_keyframes 6 (Qc_of_Z 0) = Raise ZeroDivisionError.
Proof.
  destruct (smooth_zero_fps (F:=Qc) three_keyframes 6 (Qc_of_Z 0)) as [Hgap _];
    [reflexivity|].
  apply Hgap. exists 0%nat. eexists _, _. split; [reflexivity|]. split; [reflexivity|].
  reflexivity.
Defined.

Lemma lerp_trunc_between (u v lo hi : Z) (t : Qc) :
  (0 <= t)%Q → (t <= 1)%Q → lo <= u <= hi → lo <= v <= hi →
  lo <= lerp_trunc u v t <= hi.
Proof.
  intros Ht0 Ht1 [Hlu Huh] [Hlv Hvh]. unfold lerp_trunc, Qctrunc. to_Q.
  unfold Z.sub. rewrite inject_Z_plus, inject_Z_opp. split.
  - rewrite <- (Qtrunc_inject_Z lo) at 1. apply Qtrunc_mono.
    apply lerp_lower; try assumption; rewrite <- Zle_Qle; assumption.
  - apply Qtrunc_le_Z.
    apply lerp_upper; try assumption; rewrite <- Zle_Qle; assumption.
Qed.

Lemma smooth_field_range (ax : axis) (lo hi : Z)
    (l : list (frame_analysis Qc)) (total : Z) (fps : Qc)
    (out : list (smoothed_crop Qc)) :
  Forall (λ a, lo <= crop_get ax (crop_of a) <= hi) l →
  smooth_crop_transitions l total fps = Ok out →
  Forall (λ c, lo <= smoothed_get ax c <= hi) out.
Proof.
  intros Hall. destruct l as [|a l].
  - intros [= <-]. constructor.
  - rewrite smooth_crop_transitions_Ok. intros (segments & Hseg & ->).
    apply Forall_app. split.
    + revert Hseg.
      apply (interpolate_keyframes_Forall _
               (λ a, lo <= crop_get ax (crop_of a) <= hi)); [|assumption].
      intros ka kb k c Hka Hkb Hk. rewrite interpolated_crop_Qc.
      destruct (Qcis_zero fps); [discriminate|]. intros [= <-].
      destruct (slot_factor_unit ka kb k Hk) as [Ht0 Ht1].
      destruct ax; cbn in *; now apply lerp_trunc_between.
    + constructor; [|constructor].
      pose proof (proj1 (Forall_forall _ _) Hall _ (last_elem_of l a)) as Hlast.
      destruct ax; exact Hlast.
Qed.



Lemma increasing_first_le (a : frame_analysis Qc) (l : list (frame_analysis Qc)) k :
  increasing (a :: l) → k ∈ a :: l → frame_idx a <= frame_idx k.
Proof.
  revert a. induction l as [|b l IH]; intros a Hsorted Hk.
  - apply list_elem_of_singleton in Hk as ->. reflexivity.
  - apply Sorted_inv in Hsorted as [Hsorted Hhd]. apply HdRel_inv in Hhd.
    apply elem_of_cons in Hk as [-> | Hk]; [reflexivity|].
    specialize (IH b Hsorted Hk). lia.
Qed.

Lemma increasing_nondecreasing (l : list (frame_analysis Qc)) :
  increasing l → nondecreasing l.
Proof.
  unfold increasing, nondecreasing. induction 1 as [|a l Hs IH Hhd]; constructor.
  - assumption.
  - destruct Hhd; constructor. lia.
Qed.






(** ** The aggregation of regions *)

(** X11. What the aggregation returns keeps the three lists as given,
    has an overall box exactly when there is at least one region, and has
    the confidence 0 when there is none. *)
Theorem aggregate_regions_overall (F : Type) (PF : PyFloat F) (width height : Z)
    (fs ps hs : list (region F)) (s : salient_regions F) :
  aggregate_regions width height fs ps hs = Ok s →
  faces s = fs ∧ poses s = ps ∧ hands s = hs ∧
  (overall_bbox s = None ↔ fs ++ ps ++ hs = []) ∧
  (fs ++ ps ++ hs = [] → salient_confidence s = float_of_int 0).
Proof.
  unfold aggregate_regions. destruct (fs ++ ps ++ hs) as [|r rest] eqn:Hall.
  - intros [= <-]. cbn. repeat split; auto.
  - cbn [map].
    repeat match goal with
           | |- context [int_of_float ?q ≫= _] =>
               destruct (int_of_float q); cbn [mbind Result_bind]; [|discriminate]
           end.
    intros [= <-]. cbn. repeat split; try discriminate.
Qed.

Lemma py_min_cons (a y : Qc) (l : list Qc) :
  py_min a (y :: l) = py_min (if Qcltb y a then y else a) l.
Proof. reflexivity. Qed.

Lemma py_max_cons (a y : Qc) (l : list Qc) :
  py_max a (y :: l) = py_max (if Qcltb a y then y else a) l.
Proof. reflexivity. Qed.

Lemma py_min_le (a : Qc) (l : list Qc) (x : Qc) :
  x ∈ a :: l → (py_min a l <= x)%Q.
Proof.
  revert a x. induction l as [|y l IH]; intros a x Hx.
  - apply list_elem_of_singleton in Hx as ->. apply Qle_refl.
  - rewrite py_min_cons. destruct (Qcltb y a) eqn:Hlt.
    + apply Qcltb_lt in Hlt.
      apply elem_of_cons in Hx as [-> | Hx].
      * apply Qle_trans with y; [apply IH; left | now apply Qlt_le_weak].
      * apply IH. exact Hx.
    + apply Qcltb_ge in Hlt.
      apply elem_of_cons in Hx as [-> | Hx]; [apply IH; left|].
      apply elem_of_cons in Hx as [-> | Hx].
      * apply Qle_trans with a; [apply IH; left | exact Hlt].
      * apply IH. now right.
Qed.

Lemma py_max_ge (a : Qc) (l : list Qc) (x : Qc) :
  x ∈ a :: l → (x <= py_max a l)%Q.
Proof.
  revert a x. induction l as [|y l IH]; intros a x Hx.
  - apply list_elem_of_singleton in Hx as ->. apply Qle_refl.
  - rewrite py_max_cons. destruct (Qcltb a y) eqn:Hlt.
    + apply Qcltb_lt in Hlt.
      apply elem_of_cons in Hx as [-> | Hx].
      * apply Qle_trans with y; [now apply Qlt_le_weak | apply IH; left].
      * apply IH. exact Hx.
    + apply Qcltb_ge in Hlt.
      apply elem_of_cons in Hx as [-> | Hx]; [apply IH; left|].
      apply elem_of_cons in Hx as [-> | Hx].
      * apply Qle_trans with a; [exact Hlt | apply IH; left].
      * apply IH. now right.
Qed.


Lemma fold_confidence_bounds (rs : list (region Qc)) (lo hi : Q) (acc : Qc) :
  Forall (λ r : region Qc, (lo <= region_confidence r)%Q ∧ (region_confidence r <= hi)%Q) rs →
  (acc + inject_Z (Z.of_nat (length rs)) * lo
   <= fold_left (λ (t : Qc) (r : region Qc), fadd t (region_confidence r)) rs acc)%Q ∧
  (fold_left (λ (t : Qc) (r : region Qc), fadd t (region_confidence r)) rs acc
   <= acc + inject_Z (Z.of_nat (length rs)) * hi)%Q.
Proof.
  revert acc. induction rs as [|r rs IH]; intros acc Hall.
  - cbn [fold_left length]. change (inject_Z (Z.of_nat 0)) with 0%Q.
    generalize (this acc). intros q. split; lra.
  - apply Forall_cons in Hall as [[Hlo Hhi] Hall].
    cbn [fold_left length]. destruct (IH (fadd acc (region_confidence r)) Hall) as [IHlo IHhi].
    revert IHlo IHhi. cbn [fadd Qc_PyFloat]. to_Q.
    rewrite Nat2Z.inj_succ. unfold Z.succ. rewrite inject_Z_plus.
    change (inject_Z 1) with 1%Q.
    generalize (this (fold_left (λ acc0 r0, (acc0 + region_confidence r0)%Qc) rs
                        (acc + region_confidence r)%Qc)).
    generalize dependent (inject_Z (Z.of_nat (length rs))).
    intros n q ? ?. split; nra.
Qed.

Lemma aggregate_confidence {F} `{PyFloat F} (width height : Z)
    (fs ps hs : list (region F)) (s : salient_regions F) :
  aggregate_regions width height fs ps hs = Ok s →
  fs ++ ps ++ hs ≠ [] →
  salient_confidence s
  = fdiv (total_confidence (fs ++ ps ++ hs))
         (float_of_int (Z.max 1 (Z.of_nat (length (fs ++ ps ++ hs))))).
Proof.
  unfold aggregate_regions. intros Hs Hne.
  destruct (map region_normalized_bbox (fs ++ ps ++ hs)) as [|b rest] eqn:Hall.
  { destruct (fs ++ ps ++ hs); [done | discriminate]. }
  repeat match type of Hs with
         | context [int_of_float ?q ≫= _] =>
             destruct (int_of_float q); cbn [mbind Result_bind] in Hs; [|discriminate]
         end.
  injection Hs as <-. reflexivity.
Qed.

Lemma mean_confidence_within (rs : list (region Qc)) (lo hi : Q) :
  rs ≠ [] →
  Forall (λ r : region Qc, (lo <= region_confidence r)%Q ∧ (region_confidence r <= hi)%Q) rs →
  (lo <= fdiv (total_confidence rs) (float_of_int (Z.max 1 (Z.of_nat (length rs)))))%Q ∧
  (fdiv (total_confidence rs) (float_of_int (Z.max 1 (Z.of_nat (length rs)))) <= hi)%Q.
Proof.
  intros Hne Hall. unfold total_confidence.
  destruct (fold_confidence_bounds rs lo hi (Qc_of_Z 0) Hall) as [Hlo Hhi].
  assert (Hlen : 0 < Z.of_nat (length rs)).
  { destruct rs; [done | cbn [length]; lia]. }
  revert Hlo Hhi. cbn [fdiv Qc_PyFloat float_of_int].
  rewrite Z.max_r by lia.
  to_Q. change (inject_Z 0) with 0%Q.
  assert (Hn : (0 < inject_Z (Z.of_nat (length rs)))%Q) by now apply inject_Z_pos.
  generalize dependent (inject_Z (Z.of_nat (length rs))).
  generalize (this (fold_left (λ (t : Qc) (r0 : region Qc), fadd t (region_confidence r0))
                      rs (Qc_of_Z 0))).
  intros T n Hn Hlo Hhi. split.
  - apply Qle_shift_div_l; [assumption|]. lra.
  - apply Qle_shift_div_r; [assumption|]. lra.
Qed.


Lemma aggregate_regions_overall_witness :
  ∃ s, aggregate_regions 1920 1080 [face (Q2Qc (9 # 10))] [] [] = Ok s ∧
       faces s = [face (Q2Qc (9 # 10))] ∧ poses s = [] ∧ hands s = [] ∧
       (overall_bbox s = None ↔ [face (Q2Qc (9 # 10))] ++ [] ++ [] = []).
Proof.
  destruct (aggregate_regions_total 1920 1080 [face (Q2Qc (9 # 10))] [] [])
    as [s Hs].
  exists s. split; [exact Hs|].
  destruct (aggregate_regions_overall Qc _ 1920 1080 _ _ _ s Hs)
    as (Hf & Hp & Hh & Hnone & _).
  repeat split; try assumption; apply Hnone.
Defined.



(** ** The conversion of the detections *)

Section ConversionShape.
Context {F : Type} `{PyFloat F}.

Lemma aggregate_regions_lists (width height : Z)
    (fs ps hs : list (region F)) (s : salient_regions F) :
  aggregate_regions width height fs ps hs = Ok s →
  faces s = fs ∧ poses s = ps ∧ hands s = hs.
Proof.
  unfold aggregate_regions. destruct (map _ _) as [|r rest].
  - intros [= <-]. auto.
  - cbn zeta.
    repeat match goal with
           | |- context [int_of_float ?q ≫= _] =>
               destruct (int_of_float q); cbn [mbind Result_bind]; [|discriminate]
           end.
    intros [= <-]. auto.
Qed.

Lemma detect_salient_regions_inv (height width : Z)
    (detections : list (MediaPipe.detection F))
    (holistic : MediaPipe.holistic_results F) (s : salient_regions F) :
  MediaPipe.detect_salient_regions height width detections holistic = Ok s →
  ∃ ps ls rs,
    Forall2 (λ d r, MediaPipe.face_entry width height d = Ok r) detections (faces s) ∧
    match MediaPipe.pose_landmarks holistic with
    | None => ps = []
    | Some landmarks => MediaPipe.pose_entries width height landmarks = Ok ps
    end ∧
    MediaPipe.hand_entries width height (MediaPipe.left_hand_landmarks holistic) = Ok ls ∧
    MediaPipe.hand_entries width height (MediaPipe.right_hand_landmarks holistic) = Ok rs ∧
    poses s = ps ∧ hands s = ls ++ rs ∧
    aggregate_regions width height (faces s) ps (ls ++ rs) = Ok s.
Proof.
  unfold MediaPipe.detect_salient_regions.
  destruct (mapM _ detections) as [fs|e] eqn:Hfs; [|discriminate].
  apply mapM_Ok in Hfs. cbn [mbind Result_bind].
  destruct (match MediaPipe.pose_landmarks holistic with
            | None => Ok []
            | Some landmarks => MediaPipe.pose_entries width height landmarks
            end) as [ps|e] eqn:Hps; [|discriminate].
  cbn [mbind Result_bind].
  destruct (MediaPipe.hand_entries _ _ (MediaPipe.left_hand_landmarks _)) as [ls|e] eqn:Hls;
    [|discriminate].
  cbn [mbind Result_bind].
  destruct (MediaPipe.hand_entries _ _ (MediaPipe.right_hand_landmarks _)) as [rs|e] eqn:Hrs;
    [|discriminate].
  cbn [mbind Result_bind]. intros Hs.
  destruct (aggregate_regions_lists _ _ _ _ _ _ Hs) as (Hf & Hp & Hh).
  exists ps, ls, rs. rewrite Hf, Hp, Hh. repeat split; try assumption.
  destruct (MediaPipe.pose_landmarks holistic); [assumption | now injection Hps].
Qed.

Lemma face_entry_consistent (width height : Z) d r :
  MediaPipe.face_entry width height d = Ok r → consistent width height r.
Proof.
  unfold MediaPipe.face_entry, consistent. cbn zeta.
  destruct (MediaPipe.pixel_box _ _ _) as [p|e] eqn:Hp; [|discriminate].
  intros [= <-]. exact Hp.
Qed.

Lemma pose_entries_consistent (width height : Z) landmarks ps :
  MediaPipe.pose_entries width height landmarks = Ok ps →
  Forall (consistent width height) ps.
Proof.
  unfold MediaPipe.pose_entries, consistent.
  destruct (List.filter _ landmarks) as [|lm rest].
  - intros [= <-]. constructor.
  - cbn zeta. destruct (MediaPipe.pixel_box _ _ _) as [p|e] eqn:Hp; [|discriminate].
    intros [= <-]. repeat constructor. exact Hp.
Qed.

Lemma hand_entries_consistent (width height : Z) hand hs :
  MediaPipe.hand_entries width height hand = Ok hs →
  Forall (consistent width height) hs.
Proof.
  unfold MediaPipe.hand_entries, MediaPipe.hand_entry, consistent.
  destruct hand as [[|p rest]|]; try discriminate.
  - cbn zeta. destruct (MediaPipe.pixel_box _ _ _) as [b|e] eqn:Hp; [|discriminate].
    intros [= <-]. repeat constructor. exact Hp.
  - intros [= <-]. constructor.
Qed.

Lemma detected_regions_consistent (height width : Z) detections holistic s :
  MediaPipe.detect_salient_regions height width detections holistic = Ok s →
  Forall (consistent width height) (faces s ++ poses s ++ hands s).
Proof.
  intros Hs. apply detect_salient_regions_inv in Hs
    as (ps & ls & rs & Hfs & Hps & Hls & Hrs & -> & -> & _).
  rewrite !Forall_app. repeat split.
  - clear -Hfs. induction Hfs as [|d r ds rs' Hd _ IH]; constructor; [|assumption].
    eapply face_entry_consistent. exact Hd.
  - destruct (MediaPipe.pose_landmarks holistic).
    + eapply pose_entries_consistent. exact Hps.
    + subst ps. constructor.
  - eapply hand_entries_consistent. exact Hls.
  - eapply hand_entries_consistent. exact Hrs.
Qed.

Lemma pose_entries_length (width height : Z) landmarks ps :
  MediaPipe.pose_entries width height landmarks = Ok ps →
  (length ps <= 1)%nat ∧
  (ps = [] ↔ Forall (λ lm, MediaPipe.visible lm = false) landmarks).
Proof.
  unfold MediaPipe.pose_entries.
  destruct (List.filter _ landmarks) as [|lm rest] eqn:Hvis.
  - intros [= <-]. split; [cbn; lia|]. split; [intros _|reflexivity].
    apply Forall_forall. intros lm Hlm.
    destruct (MediaPipe.visible lm) eqn:Hv; [|reflexivity].
    assert (Hin : In lm (List.filter MediaPipe.visible landmarks)).
    { apply filter_In. split; [now apply list_elem_of_In | exact Hv]. }
    rewrite Hvis in Hin. destruct Hin.
  - cbn zeta. destruct (MediaPipe.pixel_box _ _ _) as [p|e]; [|discriminate].
    intros [= <-]. split; [cbn; lia|]. split; [discriminate|].
    intros Hall. exfalso.
    assert (Hin : In lm (List.filter MediaPipe.visible landmarks))
      by (rewrite Hvis; now left).
    apply filter_In in Hin as [Hin Hv]. apply list_elem_of_In in Hin.
    rewrite Forall_forall in Hall. rewrite (Hall lm Hin) in Hv. discriminate.
Qed.

Lemma hand_entries_length (width height : Z) hand hs :
  MediaPipe.hand_entries width height hand = Ok hs →
  length hs = if hand is Some _ then 1%nat else 0%nat.
Proof.
  unfold MediaPipe.hand_entries. destruct hand as [pts|].
  - destruct (MediaPipe.hand_entry _ _ pts); [|discriminate]. now intros [= <-].
  - now intros [= <-].
Qed.

(** X14. The shape of what [detect_salient_regions] returns, under
    either arithmetic: one face entry per detection, at most one pose
    entry, none exactly when no pose landmark has a visibility above 0.5,
    and one hand entry per detected hand. *)
Theorem detected_counts (height width : Z) detections holistic s :
  MediaPipe.detect_salient_regions height width detections holistic = Ok s →
  length (faces s) = length detections ∧
  (length (poses s) <= 1)%nat ∧
  (poses s = [] ↔
   ∀ landmarks, MediaPipe.pose_landmarks holistic = Some landmarks →
                Forall (λ lm, MediaPipe.visible lm = false) landmarks) ∧
  length (hands s)
  = ((if MediaPipe.left_hand_landmarks holistic is Some _ then 1 else 0)
     + (if MediaPipe.right_hand_landmarks holistic is Some _ then 1 else 0))%nat.
Proof.
  intros Hs. apply detect_salient_regions_inv in Hs
    as (ps & ls & rs & Hfs & Hps & Hls & Hrs & -> & -> & _).
  split; [symmetry; eapply Forall2_length; exact Hfs|].
  destruct (MediaPipe.pose_landmarks holistic) as [landmarks|].
  - destruct (pose_entries_length _ _ _ _ Hps) as [Hlen Hnil].
    split; [exact Hlen|]. split.
    + rewrite Hnil. split.
      * intros Hall l [= <-]. exact Hall.
      * intros Hall. now apply Hall.
    + rewrite length_app.
      now rewrite (hand_entries_length _ _ _ _ Hls), (hand_entries_length _ _ _ _ Hrs).
  - subst ps. split; [cbn; lia|]. split.
    + split; [discriminate | reflexivity].
    + rewrite length_app.
      now rewrite (hand_entries_length _ _ _ _ Hls), (hand_entries_length _ _ _ _ Hrs).
Qed.
(** The driver's [detect_regions] stands for this conversion: on a frame
    whose detections convert to the three lists, both give the same
    salience. *)
Lemma conversion_agrees {Frame : Type} (frame_shape : Frame → Z * Z)
    (detect_regions : Frame → list (region F) * list (region F) * list (region F))
    (frame : Frame) (height width : Z) detections holistic s :
  frame_shape frame = (height, width) →
  MediaPipe.detect_salient_regions height width detections holistic = Ok s →
  detect_regions frame = (faces s, poses s, hands s) →
  detect_salient_regions Frame frame_shape detect_regions frame = Ok s.
Proof.
  intros Hshape Hs Hregions. apply detect_salient_regions_inv in Hs
    as (ps & ls & rs & _ & _ & _ & _ & Hposes & Hhands & Hagg).
  unfold detect_salient_regions. rewrite Hshape, Hregions, Hposes, Hhands.
  exact Hagg.
Qed.

End ConversionShape.

Lemma trunc_pair_fits (x w : Q) (W : Z) :
  (0 <= x)%Q → (0 <= w)%Q → (x + w <= 1)%Q → 0 <= W →
  0 <= Qtrunc (x * inject_Z W) ∧ 0 <= Qtrunc (w * inject_Z W) ∧
  Qtrunc (x * inject_Z W) + Qtrunc (w * inject_Z W) <= W.
Proof.
  intros Hx Hw Hsum HW.
  assert (HWq : (0 <= inject_Z W)%Q).
  { change 0%Q with (inject_Z 0). now rewrite <- Zle_Qle. }
  assert (Hxw : (0 <= x * inject_Z W)%Q) by now apply Qmult_le_0_compat.
  assert (Hww : (0 <= w * inject_Z W)%Q) by now apply Qmult_le_0_compat.
  pose proof (Qtrunc_nonneg _ Hxw) as H1. pose proof (Qtrunc_nonneg _ Hww) as H2.
  pose proof (Qtrunc_le_nonneg _ Hxw) as H3. pose proof (Qtrunc_le_nonneg _ Hww) as H4.
  repeat split; try assumption.
  rewrite Zle_Qle, inject_Z_plus.
  generalize dependent (Qtrunc (x * inject_Z W)).
  generalize dependent (Qtrunc (w * inject_Z W)). intros a _ Ha b _ Hb.
  generalize dependent (inject_Z a). generalize dependent (inject_Z b).
  generalize dependent (inject_Z W). intros Wq HWq _ _ qb Hb qa Ha. nra.
Qed.

Lemma pixel_box_in_frame (width height : Z) (b : NormBox Qc) (p : PixelBox) :
  0 <= width → 0 <= height → in_unit_square b →
  MediaPipe.pixel_box width height b = Ok p → pixel_in_frame width height p.
Proof.
  intros Hw Hh (Hx & Hy & Hbw & Hbh & Hr & Hb) [= <-]. unfold pixel_in_frame. cbn.
  unfold Qctrunc.
  destruct (trunc_pair_fits (nx b) (nw b) width Hx Hbw Hr Hw) as (H1 & H2 & H3).
  destruct (trunc_pair_fits (ny b) (nh b) height Hy Hbh Hb Hh) as (H4 & H5 & H6).
  revert H1 H2 H3 H4 H5 H6. to_Q. intros. repeat split; assumption.
Qed.


Lemma at_least_0_spec (v : Qc) :
  (0 <= MediaPipe.at_least_0 v)%Q ∧ (v <= MediaPipe.at_least_0 v)%Q ∧
  ((0 <= v)%Q → MediaPipe.at_least_0 v = v).
Proof.
  unfold MediaPipe.at_least_0. cbn [flt Qc_PyFloat float_of_int].
  destruct (Qcltb (Qc_of_Z 0) v) eqn:Hlt.
  - apply Qcltb_lt in Hlt. change (this (Qc_of_Z 0)) with 0%Q in Hlt.
    split; [lra|]. split; [lra | reflexivity].
  - apply Qcltb_ge in Hlt. change (this (Qc_of_Z 0)) with 0%Q in *.
    split; [lra|]. split; [lra|].
    intros Hv. apply Qc_is_canon. change (this (Qc_of_Z 0)) with 0%Q. lra.
Qed.

Lemma at_most_1_spec (v : Qc) :
  (MediaPipe.at_most_1 v <= 1)%Q ∧ (MediaPipe.at_most_1 v <= v)%Q ∧
  ((v <= 1)%Q → MediaPipe.at_most_1 v = v).
Proof.
  unfold MediaPipe.at_most_1. cbn [flt Qc_PyFloat float_of_int].
  destruct (Qcltb v (Qc_of_Z 1)) eqn:Hlt.
  - apply Qcltb_lt in Hlt. change (this (Qc_of_Z 1)) with 1%Q in Hlt.
    split; [lra|]. split; [lra | reflexivity].
  - apply Qcltb_ge in Hlt. change (this (Qc_of_Z 1)) with 1%Q in *.
    split; [lra|]. split; [lra|].
    intros Hv. apply Qc_is_canon. change (this (Qc_of_Z 1)) with 1%Q. lra.
Qed.

Lemma pose_entries_Qc (width height : Z) (landmarks : list (MediaPipe.landmark Qc)) :
  MediaPipe.pose_entries width height landmarks
  = match List.filter MediaPipe.visible landmarks with
    | [] => Ok []
    | lm :: rest =>
        let padding := (Qc_of_Z 1 / Qc_of_Z 10)%Qc in
        let min_x := MediaPipe.at_least_0
                       (py_min (MediaPipe.lm_x lm) (map MediaPipe.lm_x rest) - padding)%Qc in
        let min_y := MediaPipe.at_least_0
                       (py_min (MediaPipe.lm_y lm) (map MediaPipe.lm_y rest) - padding)%Qc in
        let max_x := MediaPipe.at_most_1
                       (py_max (MediaPipe.lm_x lm) (map MediaPipe.lm_x rest) + padding)%Qc in
        let max_y := MediaPipe.at_most_1
                       (py_max (MediaPipe.lm_y lm) (map MediaPipe.lm_y rest) + padding)%Qc in
        let b := mkNormBox min_x min_y (max_x - min_x)%Qc (max_y - min_y)%Qc in
        Ok [mkRegion
              (mkPixelBox (Qctrunc (min_x * Qc_of_Z width)) (Qctrunc (min_y * Qc_of_Z height))
                 (Qctrunc ((max_x - min_x) * Qc_of_Z width))
                 (Qctrunc ((max_y - min_y) * Qc_of_Z height)))
              (Qc_of_Z 9 / Qc_of_Z 10)%Qc b]
    end.
Proof.
  unfold MediaPipe.pose_entries. destruct (List.filter _ landmarks); reflexivity.
Qed.

Lemma hand_entry_Qc (width height : Z) (p : MediaPipe.landmark Qc) rest :
  MediaPipe.hand_entry width height (p :: rest)
  = let min_x := py_min (MediaPipe.lm_x p) (map MediaPipe.lm_x rest) in
    let max_x := py_max (MediaPipe.lm_x p) (map MediaPipe.lm_x rest) in
    let min_y := py_min (MediaPipe.lm_y p) (map MediaPipe.lm_y rest) in
    let max_y := py_max (MediaPipe.lm_y p) (map MediaPipe.lm_y rest) in
    let b := mkNormBox min_x min_y (max_x - min_x)%Qc (max_y - min_y)%Qc in
    Ok (mkRegion
          (mkPixelBox (Qctrunc (min_x * Qc_of_Z width)) (Qctrunc (min_y * Qc_of_Z height))
             (Qctrunc ((max_x - min_x) * Qc_of_Z width))
             (Qctrunc ((max_y - min_y) * Qc_of_Z height)))
          (Qc_of_Z 8 / Qc_of_Z 10)%Qc b).
Proof. reflexivity. Qed.


Lemma at_least_0_le (v c : Qc) :
  (v <= c)%Q → (0 <= c)%Q → (MediaPipe.at_least_0 v <= c)%Q.
Proof.
  intros Hv Hc. unfold MediaPipe.at_least_0. cbn [flt Qc_PyFloat float_of_int].
  destruct (Qcltb (Qc_of_Z 0) v); [exact Hv | exact Hc].
Qed.

Lemma at_most_1_ge (v c : Qc) :
  (c <= v)%Q → (c <= 1)%Q → (c <= MediaPipe.at_most_1 v)%Q.
Proof.
  intros Hv Hc. unfold MediaPipe.at_most_1. cbn [flt Qc_PyFloat float_of_int].
  destruct (Qcltb v (Qc_of_Z 1)); [exact Hv | exact Hc].
Qed.

Lemma py_min_le_max (a : Qc) (l : list Qc) : (py_min a l <= py_max a l)%Q.
Proof.
  apply Qle_trans with a; [apply py_min_le | apply py_max_ge]; left.
Qed.

Lemma elem_of_coordinates {A} (f : A → Qc) (x a : A) (l : list A) :
  x ∈ a :: l → f x ∈ f a :: map f l.
Proof.
  intros Hx. change (f x ∈ map f (a :: l)). apply list_elem_of_fmap. eauto.
Qed.


Lemma hand_entries_contains (width height : Z)
    (hand_points : list (MediaPipe.landmark Qc)) (hs : list (region Qc))
    (p : MediaPipe.landmark Qc) :
  MediaPipe.hand_entries width height (Some hand_points) = Ok hs →
  p ∈ hand_points →
  ∃ r, hs = [r] ∧ region_confidence r = (Qc_of_Z 8 / Qc_of_Z 10)%Qc ∧
       (0 <= nw (region_normalized_bbox r))%Q ∧ (0 <= nh (region_normalized_bbox r))%Q ∧
       point_in_box (MediaPipe.lm_x p) (MediaPipe.lm_y p) (region_normalized_bbox r).
Proof.
  unfold MediaPipe.hand_entries. destruct hand_points as [|p0 rest].
  { intros _ Hp. now apply elem_of_nil in Hp. }
  rewrite hand_entry_Qc. cbv zeta. cbn [mbind Result_bind]. intros [= <-] Hp.
  eexists. split; [reflexivity|]. split; [reflexivity|].
  unfold point_in_box. cbn [region_normalized_bbox nx ny nw nh].
  pose proof (py_min_le _ _ _ (elem_of_coordinates MediaPipe.lm_x _ _ _ Hp)) as Hminx.
  pose proof (py_max_ge _ _ _ (elem_of_coordinates MediaPipe.lm_x _ _ _ Hp)) as Hmaxx.
  pose proof (py_min_le _ _ _ (elem_of_coordinates MediaPipe.lm_y _ _ _ Hp)) as Hminy.
  pose proof (py_max_ge _ _ _ (elem_of_coordinates MediaPipe.lm_y _ _ _ Hp)) as Hmaxy.
  generalize dependent (py_min (MediaPipe.lm_x p0) (map MediaPipe.lm_x rest)).
  generalize dependent (py_max (MediaPipe.lm_x p0) (map MediaPipe.lm_x rest)).
  generalize dependent (py_min (MediaPipe.lm_y p0) (map MediaPipe.lm_y rest)).
  generalize dependent (py_max (MediaPipe.lm_y p0) (map MediaPipe.lm_y rest)).
  intros y1 Hmaxy y0 Hminy x1 Hmaxx x0 Hminx. to_Q.
  generalize dependent (this x0). generalize dependent (this x1).
  generalize dependent (this y0). generalize dependent (this y1).
  generalize (this (MediaPipe.lm_x p)) (this (MediaPipe.lm_y p)).
  intros. repeat split; lra.
Qed.


Lemma pose_entries_confidence (width height : Z)
    (landmarks : list (MediaPipe.landmark Qc)) (ps : list (region Qc)) :
  MediaPipe.pose_entries width height landmarks = Ok ps →
  Forall (λ r : region Qc, region_confidence r = (Qc_of_Z 9 / Qc_of_Z 10)%Qc) ps.
Proof.
  rewrite pose_entries_Qc. destruct (List.filter _ landmarks).
  - intros [= <-]. constructor.
  - cbv zeta. intros [= <-]. repeat constructor.
Qed.

Lemma hand_entries_confidence (width height : Z)
    (hand : option (list (MediaPipe.landmark Qc))) (hs : list (region Qc)) :
  MediaPipe.hand_entries width height hand = Ok hs →
  Forall (λ r : region Qc, region_confidence r = (Qc_of_Z 8 / Qc_of_Z 10)%Qc) hs.
Proof.
  unfold MediaPipe.hand_entries. destruct hand as [[|p rest]|]; try discriminate.
  - rewrite hand_entry_Qc. cbv zeta. cbn [mbind Result_bind].
    intros [= <-]. repeat constructor.
  - intros [= <-]. constructor.
Qed.


Lemma face_entries_total (width height : Z) (detections : list (MediaPipe.detection Qc)) :
  ∃ fs, mapM (MediaPipe.face_entry width height) detections = Ok fs.
Proof. apply mapM_total. intros d _. eexists. reflexivity. Qed.

Lemma pose_entries_total (width height : Z) (landmarks : list (MediaPipe.landmark Qc)) :
  ∃ ps, MediaPipe.pose_entries width height landmarks = Ok ps.
Proof.
  rewrite pose_entries_Qc. destruct (List.filter _ landmarks); eexists; reflexivity.
Qed.

Lemma hand_entries_outcome (width height : Z)
    (hand : option (list (MediaPipe.landmark Qc))) :
  (hand = Some [] ∧ MediaPipe.hand_entries width height hand = Raise ValueError) ∨
  (hand ≠ Some [] ∧ ∃ hs, MediaPipe.hand_entries width height hand = Ok hs).
Proof.
  destruct hand as [[|p rest]|].
  - left. split; reflexivity.
  - right. split; [discriminate|]. eexists. reflexivity.
  - right. split; [discriminate|]. eexists. reflexivity.
Qed.

Lemma detect_salient_regions_outcome (height width : Z)
    (detections : list (MediaPipe.detection Qc))
    (holistic : MediaPipe.holistic_results Qc) :
  (MediaPipe.left_hand_landmarks holistic = Some [] ∨
   MediaPipe.right_hand_landmarks holistic = Some [] →
   MediaPipe.detect_salient_regions height width detections holistic
   = Raise ValueError) ∧
  (MediaPipe.left_hand_landmarks holistic ≠ Some [] →
   MediaPipe.right_hand_landmarks holistic ≠ Some [] →
   ∃ s, MediaPipe.detect_salient_regions height width detections holistic = Ok s).
Proof.
  unfold MediaPipe.detect_salient_regions.
  destruct (face_entries_total width height detections) as [fs ->].
  cbn [mbind Result_bind].
  assert (Hps : ∃ ps, match MediaPipe.pose_landmarks holistic with
                      | None => Ok []
                      | Some landmarks => MediaPipe.pose_entries width height landmarks
                      end = Ok ps).
  { destruct (MediaPipe.pose_landmarks holistic); [apply pose_entries_total|].
    eexists. reflexivity. }
  destruct Hps as [ps ->]. cbn [mbind Result_bind].
  destruct (hand_entries_outcome width height (MediaPipe.left_hand_landmarks holistic))
    as [[Hl ->] | [Hl [ls ->]]]; cbn [mbind Result_bind].
  { split; [reflexivity | intros Hno; now destruct Hno]. }
  destruct (hand_entries_outcome width height (MediaPipe.right_hand_landmarks holistic))
    as [[Hr ->] | [Hr [rs ->]]]; cbn [mbind Result_bind].
  { split; [reflexivity | intros _ Hno; now destruct Hno]. }
  split.
  - intros [Hempty | Hempty]; [now destruct Hl | now destruct Hr].
  - intros _ _. apply aggregate_regions_total.
Qed.

Lemma detect_salient_regions_Ok (height width : Z)
    (detections : list (MediaPipe.detection Qc))
    (holistic : MediaPipe.holistic_results Qc) :
  MediaPipe.left_hand_landmarks holistic ≠ Some [] →
  MediaPipe.right_hand_landmarks holistic ≠ Some [] →
  ∃ s, MediaPipe.detect_salient_regions height width detections holistic = Ok s.
Proof. apply detect_salient_regions_outcome. Qed.


(** What the sample detections convert to: one entry of each kind. *)
Lemma waving_detected (detections : list (MediaPipe.detection Qc)) :
  ∃ s pr hr,
    MediaPipe.detect_salient_regions 1080 1920 detections waving = Ok s ∧
    Forall2 (λ d r, MediaPipe.face_entry 1920 1080 d = Ok r) detections (faces s) ∧
    poses s = [pr] ∧ hands s = [hr].
Proof.
  destruct (detect_salient_regions_Ok 1080 1920 detections waving) as [s Hs];
    [discriminate | discriminate |].
  destruct (detect_salient_regions_inv _ _ _ _ _ Hs)
    as (ps & ls & rs & Hfs & Hps & Hls & Hrs & Hposes & Hhands & _).
  vm_compute in Hps. injection Hps as <-.
  vm_compute in Hls. injection Hls as <-.
  vm_compute in Hrs. injection Hrs as <-.
  eexists s, _, _. split; [exact Hs|]. split; [exact Hfs|].
  split; [exact Hposes | exact Hhands].
Qed.

Lemma detected_counts_witness :
  ∃ s, MediaPipe.detect_salient_regions 1080 1920 [seen_face] waving = Ok s ∧
       length (faces s) = 1%nat ∧ (length (poses s) <= 1)%nat ∧ length (hands s) = 1%nat.
Proof.
  destruct (waving_detected [seen_face]) as (s & pr & hr & Hs & _).
  exists s. split; [exact Hs|].
  destruct (detected_counts 1080 1920 [seen_face] waving s Hs) as (Hf & Hp & _ & Hh).
  split; [exact Hf|]. split; [exact Hp | exact Hh].
Defined.







(** ** The driver and the command line *)

Section Report.
Context {F : Type} `{PyFloat F} {Frame : Type}.
Variable frame_shape : Frame → Z * Z.
Variable detect_regions :
  Frame → list (region F) * list (region F) * list (region F).

Lemma analyze_frames_world (fw fh : Z) (fps : F) (label : string) (interval : Z)
    (frames : list Frame) (idx : Z) (acc : list (frame_analysis F))
    (w w' : world F Frame) (st : step (list (frame_analysis F))) :
  analyze_frames Frame frame_shape detect_regions fw fh fps label interval
    frames idx acc w = (w', st) →
  files w' = files w ∧ stderr w' = stderr w ∧
  (∃ more, stdout w' = stdout w ++ more) ∧ ∀ code, st ≠ Stop (SystemExit code).
Proof.
  revert idx acc w. induction frames as [|frame rest IH]; intros idx acc w.
  - intros [= <- <-]. repeat split; [|discriminate]. exists []. now rewrite app_nil_r.
  - cbn [analyze_frames]. unfold mbind at 1. unfold IO_bind at 1.
    destruct (idx `mod` interval =? 0).
    + unfold mbind, IO_bind, lift, print.
      destruct (detect_salient_regions _ _ _ frame) as [s|e].
      2:{ intros [= <- <-]. repeat split; [|discriminate].
          exists []. now rewrite app_nil_r. }
      destruct (calculate_autoflip_crop fw fh s label) as [c|e].
      2:{ intros [= <- <-]. repeat split; [|discriminate].
          exists []. now rewrite app_nil_r. }
      destruct (truediv _ fps) as [ts|e].
      2:{ intros [= <- <-]. repeat split; [|discriminate].
          exists []. now rewrite app_nil_r. }
      intros Hrun. apply IH in Hrun as (Hf & He & (more & Ho) & Hno).
      cbn in Hf, He, Ho.
      repeat split; try assumption. eexists. rewrite Ho, <- app_assoc. reflexivity.
    + cbn. apply IH.
Qed.

Lemma sampled_cons (frame : Frame) (frames : list Frame) (first fw fh : Z) (fps : F)
    (label : string) (a : frame_analysis F) :
  sampled frame_shape detect_regions frames (first + 1) fw fh fps label a →
  sampled frame_shape detect_regions (frame :: frames) first fw fh fps label a.
Proof.
  intros (Hle & Hts & f & Hf & Hrest). split; [lia|]. split; [exact Hts|].
  exists f. split; [|exact Hrest].
  replace (Z.to_nat (frame_idx a - first)) with (S (Z.to_nat (frame_idx a - (first + 1))))
    by lia.
  exact Hf.
Qed.

Lemma analyze_frames_Done_inv (fw fh : Z) (fps : F) (label : string) (interval : Z)
    (frames : list Frame) (idx : Z) (acc acc' : list (frame_analysis F))
    (w w' : world F Frame) :
  analyze_frames Frame frame_shape detect_regions fw fh fps label interval
    frames idx acc w = (w', Done acc') →
  ∃ new, acc' = acc ++ new ∧
    frame_idx <$> new
    = filter (λ i, i `mod` interval = 0) (seqZ idx (Z.of_nat (length frames))) ∧
    Forall (sampled frame_shape detect_regions frames idx fw fh fps label) new.
Proof.
  revert idx acc w. induction frames as [|frame rest IH]; intros idx acc w.
  - intros [= _ <-]. exists []. rewrite app_nil_r. repeat split. constructor.
  - cbn [analyze_frames length]. rewrite Nat2Z.inj_succ, seqZ_cons by lia.
    rewrite Z.pred_succ, filter_cons.
    unfold mbind at 1. unfold IO_bind at 1.
    destruct (Z.eqb_spec (idx `mod` interval) 0) as [Hmod | Hmod].
    + rewrite decide_True by assumption.
      unfold mbind, IO_bind, lift, print.
      destruct (detect_salient_regions _ _ _ frame) as [s|e] eqn:Hs; [|discriminate].
      destruct (calculate_autoflip_crop fw fh s label) as [c|e] eqn:Hc; [|discriminate].
      destruct (truediv _ fps) as [ts|e] eqn:Hts; [|discriminate].
      intros Hrun. apply IH in Hrun as (new & -> & Hidx & Hall).
      exists (mkAnalysis idx ts s c :: new). rewrite <- app_assoc. split; [reflexivity|].
      split.
      * cbn. now rewrite Hidx.
      * constructor.
        -- split; [cbn; lia|]. split; [exact Hts|]. exists frame. cbn.
           rewrite Z.sub_diag. auto.
        -- eapply Forall_impl; [exact Hall|]. apply sampled_cons.
    + rewrite decide_False by assumption. cbn. intros Hrun.
      apply IH in Hrun as (new & -> & Hidx & Hall).
      exists new. repeat split; [exact Hidx|].
      eapply Forall_impl; [exact Hall|]. apply sampled_cons.
Qed.

Lemma increasing_of_indices (P : Z → Prop) `{!∀ i, Decision (P i)}
    (l : list (frame_analysis F)) (m n : Z) :
  frame_idx <$> l = filter P (seqZ m n) →
  increasing l ∧ Forall (λ a, m <= frame_idx a) l.
Proof.
  remember (Z.to_nat n) as k eqn:Hk. revert m n l Hk.
  induction k as [|k IH]; intros m n l Hk Hl.
  - rewrite seqZ_nil in Hl by lia. destruct l; [|discriminate].
    split; constructor.
  - rewrite seqZ_cons, filter_cons in Hl by lia.
    assert (Hrest : ∀ l' : list (frame_analysis F),
               frame_idx <$> l' = filter P (seqZ (Z.succ m) (Z.pred n)) →
               increasing l' ∧ Forall (λ a, m + 1 <= frame_idx a) l').
    { intros l' Hl'. destruct (IH (Z.succ m) (Z.pred n) l') as [Hi Ha];
        [lia | exact Hl' |].
      split; [assumption|]. eapply Forall_impl; [exact Ha|]. cbn. lia. }
    destruct (decide (P m)).
    + destruct l as [|a l']; [discriminate|]. injection Hl as Ha Hl'.
      destruct (Hrest l' Hl') as [Hinc Hall]. split.
      * constructor; [assumption|]. destruct Hall as [|b l'' Hb _]; constructor. lia.
      * constructor; [lia|]. eapply Forall_impl; [exact Hall|]. cbn. lia.
    + destruct (Hrest l Hl) as [Hinc Hall]. split; [assumption|].
      eapply Forall_impl; [exact Hall|]. cbn. lia.
Qed.

Lemma increasing_is_nondecreasing (l : list (frame_analysis F)) :
  increasing l → nondecreasing l.
Proof.
  unfold increasing, nondecreasing. induction 1 as [|a l Hs IH Hhd]; constructor.
  - assumption.
  - destruct Hhd; constructor. lia.
Qed.

Lemma process_video_world (input output label : string) (rate : Z)
    (w w' : world F Frame) (st : step (process_result F)) :
  process_video_autoflip Frame frame_shape detect_regions input output label rate w
  = (w', st) →
  files w' = files w ∧ stderr w' = stderr w ∧
  (∃ more, stdout w' = stdout w ++ more) ∧ ∀ code, st ≠ Stop (SystemExit code).
Proof.
  unfold process_video_autoflip, VideoCapture, mbind, IO_bind.
  destruct (files w !! input) as [[v| |r]|];
    try (intros [= <- <-]; repeat split; [|discriminate];
         exists []; now rewrite app_nil_r).
  unfold lift at 1. destruct (floordiv _ rate) as [per|e];
    [|intros [= <- <-]; repeat split; [|discriminate];
      exists []; now rewrite app_nil_r].
  cbn [print].
  destruct (analyze_frames _ _ _ _ _ _ _ _ _ _ _ _) as [w1 st1] eqn:Hrun.
  apply analyze_frames_world in Hrun as (Hf & He & (more & Ho) & Hno).
  cbn in Hf, He, Ho.
  destruct st1 as [analyses|ab].
  - unfold lift. destruct (smooth_crop_transitions _ _ _);
      intros [= <- <-]; repeat split; try assumption; try discriminate;
      eexists; rewrite Ho, <- !app_assoc; reflexivity.
  - intros [= <- <-]. repeat split; try assumption.
    + eexists. rewrite Ho, <- !app_assoc. reflexivity.
    + intros code [= ->]. now apply (Hno code).
Qed.

Lemma process_video_Done_inv (input output label : string) (rate : Z)
    (w w' : world F Frame) (r : report F) :
  process_video_autoflip Frame frame_shape detect_regions input output label rate w
  = (w', Done (ProcessDone r)) →
  ∃ v, files w !! input = Some (VideoFile v) ∧ rate ≠ 0 ∧
    input_path r = input ∧ output_path r = output ∧ target_aspect_ratio r = label ∧
    original_dimensions r = (video_width v, video_height v) ∧
    frame_count r = video_frame_count v ∧ fps r = video_fps v ∧ sample_rate r = rate ∧
    frame_idx <$> frame_analyses r
    = filter (λ i, i `mod` Z.max 1 (video_frame_count v `div` rate) = 0)
             (seqZ 0 (Z.of_nat (length (video_frames v)))) ∧
    Forall (sampled frame_shape detect_regions (video_frames v) 0
              (video_width v) (video_height v) (video_fps v) label)
           (frame_analyses r) ∧
    smooth_crop_transitions (frame_analyses r) (frame_count r) (fps r)
    = Ok (smoothed_crops r) ∧
    stats r = processing_stats_of (frame_analyses r).
Proof.
  unfold process_video_autoflip, VideoCapture, mbind, IO_bind.
  destruct (files w !! input) as [[v| |r0]|]; try discriminate.
  unfold lift at 1, floordiv. destruct (Z.eqb_spec rate 0) as [|Hrate]; [discriminate|].
  cbn [print].
  destruct (analyze_frames _ _ _ _ _ _ _ _ _ _ _ _) as [w1 [analyses|ab]] eqn:Hrun;
    [|discriminate].
  apply analyze_frames_Done_inv in Hrun as (new & -> & Hidx & Hall).
  unfold lift. destruct (smooth_crop_transitions _ _ _) as [out|e] eqn:Hout;
    [|discriminate].
  intros [= _ <-]. exists v. cbn. repeat split; try assumption; reflexivity.
Qed.

(** X21. Which frames a finished run analysed: the frame indices of
    [frame_analyses], in order, are the indices of the frames read that
    are multiples of [max(1, frame_count // sample_rate)], under either
    arithmetic.  The frames read count, not the frame count of the
    container. *)
Theorem report_sampling (input output label : string) (rate : Z)
    (w w' : world F Frame) (v : video F Frame) (r : report F) :
  files w !! input = Some (VideoFile v) →
  process_video_autoflip Frame frame_shape detect_regions input output label rate w
  = (w', Done (ProcessDone r)) →
  frame_idx <$> frame_analyses r
  = filter (λ i, i `mod` Z.max 1 (video_frame_count v `div` rate) = 0)
           (seqZ 0 (Z.of_nat (length (video_frames v)))).
Proof.
  intros Hfile Hrun. apply process_video_Done_inv in Hrun as (v' & Hv & _ & Hrest).
  rewrite Hfile in Hv. injection Hv as <-. apply Hrest.
Qed.

(** X22. What a finished run recorded for each analysed frame: the
    timestamp [frame_idx / fps], the salience detected in the frame of
    that index, and the crop planned for that salience with the width and
    height of the capture and the label of the run. *)
Theorem report_keyframes (input output label : string) (rate : Z)
    (w w' : world F Frame) (v : video F Frame) (r : report F) :
  files w !! input = Some (VideoFile v) →
  process_video_autoflip Frame frame_shape detect_regions input output label rate w
  = (w', Done (ProcessDone r)) →
  Forall (sampled frame_shape detect_regions (video_frames v) 0
            (video_width v) (video_height v) (video_fps v) label)
         (frame_analyses r).
Proof.
  intros Hfile Hrun. apply process_video_Done_inv in Hrun as (v' & Hv & _ & Hrest).
  rewrite Hfile in Hv. injection Hv as <-. apply Hrest.
Qed.

(** X23. In the report of a finished run [smoothed_crops] is indexed by
    the frame: the entry at position [i] is for frame [i]. *)
Theorem report_smoothed_positions (input output label : string) (rate : Z)
    (w w' : world F Frame) (r : report F) :
  process_video_autoflip Frame frame_shape detect_regions input output label rate w
  = (w', Done (ProcessDone r)) →
  ∀ (i : nat) c, smoothed_crops r !! i = Some c → sc_frame_idx c = Z.of_nat i.
Proof.
  intros Hrun.
  apply process_video_Done_inv in Hrun
    as (v & _ & _ & _ & _ & _ & _ & _ & _ & _ & Hidx & _ & Hsmooth & _).
  destruct (frame_analyses r) as [|a l] eqn:Hl.
  - injection Hsmooth as <-. intros i c Hi. discriminate.
  - destruct (increasing_of_indices _ _ _ _ Hidx) as [Hinc _].
    assert (Ha : frame_idx a = 0).
    { destruct (video_frames v) as [|f fs].
      - rewrite seqZ_nil in Hidx by (cbn; lia). discriminate.
      - rewrite seqZ_cons, filter_cons in Hidx by (cbn [length]; lia).
        rewrite decide_True in Hidx by apply Zmod_0_l. now injection Hidx. }
    intros i c Hi.
    rewrite (smooth_lookup_frame_idx a l _ _ _
               (increasing_is_nondecreasing _ Hinc) Hsmooth i c Hi).
    lia.
Qed.

Lemma main_world (args : arguments) (w w' : world F Frame) (st : step unit) :
  main Frame frame_shape detect_regions args w = (w', st) →
  stderr w' = stderr w ∧
  match st with
  | Done _ => ∃ r, files w' = <[output_json args := JsonFile r]> (files w)
  | Stop (SystemExit code) => code = 1 ∧ files w' = files w
  | Stop (Uncaught e) => files w' = files w
  end.
Proof.
  unfold main, path_exists, mbind, IO_bind.
  destruct (bool_decide _); cbn [negb print sys_exit].
  2:{ intros [= <- <-]. repeat split. }
  destruct (process_video_autoflip _ _ _ _ _ _ _ _) as [w1 st1] eqn:Hrun.
  apply process_video_world in Hrun as (Hf & He & _ & Hno). cbn in Hf, He.
  destruct st1 as [[text|r]|ab].
  - intros [= <- <-]. cbn. auto.
  - unfold write_json. cbn. intros [= <- <-]. cbn. split; [assumption|].
    exists r. now rewrite Hf.
  - intros [= <- <-]. destruct ab as [code|e]; [now destruct (Hno code)|auto].
Qed.


(** X26. With [--sample-rate 0] on a video that opens, the run ends in
    an uncaught [ZeroDivisionError] from [frame_count // sample_rate]:
    status 1, the traceback on stderr, only the starting line on stdout,
    and no file written. *)
Theorem zero_sample_rate (args : arguments) (w : world F Frame) (v : video F Frame) :
  files w !! input_video args = Some (VideoFile v) →
  arg_sample_rate args = 0 →
  run Frame frame_shape detect_regions args w
  = (mkWorld (files w) (stdout w ++ [MsgStarting])
       (stderr w ++ [MsgTraceback ZeroDivisionError]), 1).
Proof.
  intros Hfile Hrate.
  unfold run, main, path_exists, process_video_autoflip, VideoCapture, mbind, IO_bind.
  rewrite Hfile, bool_decide_eq_true_2 by eauto. cbn [negb print files].
  rewrite Hfile, Hrate. reflexivity.
Qed.
End Report.

Section RationalRuns.
Context {Frame : Type}.
Variable frame_shape : Frame → Z * Z.
Variable detect_regions :
  Frame → list (region Qc) * list (region Qc) * list (region Qc).


Lemma planner_Qc_outcome (fw fh : Z) (s : salient_regions Qc) (label : string) :
  (∃ c, calculate_autoflip_crop fw fh s label = Ok c) ∨
  calculate_autoflip_crop fw fh s label = Raise ZeroDivisionError.
Proof.
  destruct (Z.eq_dec fh 0) as [-> | Hfh].
  - right. reflexivity.
  - left. destruct (planner_spec fw fh s label Hfh) as (c & Hc & _). eauto.
Qed.

Lemma analyze_frames_zero_fps (fw fh : Z) (label : string) (interval : Z)
    (frame : Frame) (rest : list Frame) (w : world Qc Frame) :
  analyze_frames Frame frame_shape detect_regions fw fh (Q2Qc 0) label interval
    (frame :: rest) 0 [] w = (w, Stop (Uncaught ZeroDivisionError)).
Proof.
  cbn [analyze_frames]. unfold mbind at 1. unfold IO_bind at 1.
  rewrite Zmod_0_l. cbn [Z.eqb].
  destruct (detect_salient_regions_total frame_shape detect_regions frame) as [s Hs].
  unfold mbind, IO_bind, lift. rewrite Hs.
  destruct (planner_Qc_outcome fw fh s label) as [[c ->] | ->]; reflexivity.
Qed.

End RationalRuns.

(** The sample run on [two_frames] ends with a report. *)
Lemma sample_run_Done :
  ∃ w' r,
    process_video_autoflip unit shape_1080p detect_nothing "in.mp4" "out.json" "9:16" 30
      with_video
    = (w', Done (ProcessDone r)).
Proof.
  apply (process_video_succeeds shape_1080p detect_nothing _ _ _ _ with_video two_frames);
    [apply lookup_singleton_eq | discriminate | discriminate | discriminate].
Qed.

Lemma report_sampling_witness :
  ∃ w' r,
    process_video_autoflip unit shape_1080p detect_nothing "in.mp4" "out.json" "9:16" 30
      with_video
    = (w', Done (ProcessDone r)) ∧
    frame_idx <$> frame_analyses r = [0; 1].
Proof.
  destruct sample_run_Done as (w' & r & Hrun). exists w', r. split; [exact Hrun|].
  rewrite (report_sampling shape_1080p detect_nothing _ _ _ _ with_video w' two_frames r
             (lookup_singleton_eq _ _) Hrun).
  reflexivity.
Defined.

Lemma report_keyframes_witness :
  ∃ w' r,
    process_video_autoflip unit shape_1080p detect_nothing "in.mp4" "out.json" "9:16" 30
      with_video
    = (w', Done (ProcessDone r)) ∧
    Forall (sampled shape_1080p detect_nothing [tt; tt] 0 1920 1080 (Qc_of_Z 30) "9:16")
           (frame_analyses r).
Proof.
  destruct sample_run_Done as (w' & r & Hrun). exists w', r. split; [exact Hrun|].
  apply (report_keyframes shape_1080p detect_nothing _ _ _ _ with_video w' two_frames r
           (lookup_singleton_eq _ _) Hrun).
Defined.

Lemma report_smoothed_positions_witness :
  ∃ w' r,
    process_video_autoflip unit shape_1080p detect_nothing "in.mp4" "out.json" "9:16" 30
      with_video
    = (w', Done (ProcessDone r)) ∧
    ∀ (i : nat) c, smoothed_crops r !! i = Some c → sc_frame_idx c = Z.of_nat i.
Proof.
  destruct sample_run_Done as (w' & r & Hrun). exists w', r. split; [exact Hrun|].
  apply (report_smoothed_positions shape_1080p detect_nothing _ _ _ _ with_video w' r Hrun).
Defined.



Lemma zero_sample_rate_witness :
  run unit shape_1080p detect_nothing zero_rate_args with_video
  = (mkWorld {["in.mp4"%string := VideoFile two_frames]} [MsgStarting]
       [MsgTraceback ZeroDivisionError], 1).
Proof.
  apply (zero_sample_rate shape_1080p detect_nothing zero_rate_args with_video two_frames);
    [apply lookup_singleton_eq | reflexivity].
Defined.

